(** * examples/cholesteric.py: a cholesteric liquid crystal driven through
      the Berreman4x4 library

    The script is sequential glue: it builds library objects, calls the
    solver once per wavelength, post-processes the collected Jones matrices
    with numpy array arithmetic, prints diagnostics and plots two curves.

    The embedding has three layers.
    - Python numbers are kept behind the interface [Arith] (literals and the
      arithmetic the script performs) and [Routines] (what the script only
      forwards: pi, tanh, angle, the eigen-solver, float formatting).  Two
      instances are provided: exact rationals and IEEE binary64.
    - numpy arrays are nested lists ([ndarray]); the array operations the
      script uses (elementwise maps, broadcasting, sum over the last axis,
      transpose, indexing, argmin, linspace) are functions on them.
    - Calls into Berreman4x4, print, pyplot and numpy.set_printoptions are
      events of a small free monad [prog]; a run of the script against an
      environment yields a trace of events and an outcome.  A call is
      taken to return: the script has no handler, so a call that raises
      ends it there.  What numpy computes ([tanh], [angle], [linalg.eig])
      is a function of its arguments. *)

From Stdlib Require Import String DecimalString ZArith QArith Qabs List Bool Lia PeanoNat.
From Stdlib Require Import Floats.PrimFloat Numbers.Cyclic.Int63.Uint63.
Import ListNotations.

Close Scope Q_scope.
Set Implicit Arguments.
#[local] Set Warnings "-register-all".

(** ** Python numbers *)

(** The arithmetic the script performs on floats and on numpy scalars.
    [nlit] reads a decimal or integer literal, [npow x 2] is [x**2],
    [nsum] is numpy's reduction of the entries found along one axis. *)
Class Arith (num : Type) := {
  nlit : Q -> num;
  nadd : num -> num -> num;
  nsub : num -> num -> num;
  nmul : num -> num -> num;
  ndiv : num -> num -> num;
  nabs : num -> num;
  npow : num -> Z -> num;
  nltb : num -> num -> bool;
  nsum : list num -> num
}.

Definition nint {num} `{Arith num} (n : Z) : num := nlit (inject_Z n).

(** ** numpy arrays *)

Inductive ndarray (num : Type) : Type :=
| Sc (x : num)
| Ar (l : list (ndarray num)).

Arguments Sc {num} x.
Arguments Ar {num} l.

Section NdArray.
Context {num : Type}.

Local Abbreviation nd := (ndarray num).

(** Induction through the nested lists. *)
Fixpoint ndarray_rect' (P : nd -> Type) (Q : list nd -> Type)
    (HSc : forall x, P (Sc x))
    (HAr : forall l, Q l -> P (Ar l))
    (Hnil : Q [])
    (Hcons : forall a l, P a -> Q l -> Q (a :: l))
    (a : nd) : P a :=
  match a with
  | Sc x => HSc x
  | Ar l =>
      HAr l ((fix go (l : list nd) : Q l :=
                match l with
                | [] => Hnil
                | b :: l' =>
                    Hcons b l' (ndarray_rect' P Q HSc HAr Hnil Hcons b) (go l')
                end) l)
  end.

Fixpoint nd_map (f : num -> num) (a : nd) : nd :=
  match a with
  | Sc x => Sc (f x)
  | Ar l => Ar (map (nd_map f) l)
  end.

(** Number of axes, read along the first entries. *)
Fixpoint ndim (a : nd) : nat :=
  match a with
  | Sc _ => 0
  | Ar [] => 1
  | Ar (b :: _) => S (ndim b)
  end.

(** The shape of a rectangular array; [None] on ragged nesting, which
    is not a numpy array of numbers. *)
Fixpoint shape (a : nd) : option (list nat) :=
  match a with
  | Sc _ => Some []
  | Ar l =>
      match l with
      | [] => Some [0]
      | b :: l' =>
          match shape b with
          | Some sh =>
              if forallb
                   (fun c => match shape c with
                             | Some sh' => if list_eq_dec Nat.eq_dec sh' sh then true else false
                             | None => false
                             end) l'
              then Some (length l :: sh) else None
          | None => None
          end
      end
  end.

Definition is_scalar (a : nd) : bool :=
  match a with Sc _ => true | Ar _ => false end.

Definition scalars (l : list nd) : list num :=
  flat_map (fun a => match a with Sc x => [x] | Ar _ => [] end) l.

(** [a[k]]: the k-th entry along the first axis. *)
Definition nd_index (a : nd) (k : nat) : option nd :=
  match a with
  | Sc _ => None
  | Ar l => nth_error l k
  end.

(** [a[..., j]]: the last index fixed to [j]. *)
Fixpoint take_last (j : nat) (a : nd) : nd :=
  match a with
  | Sc x => Sc x
  | Ar l =>
      if forallb is_scalar l then nth j l (Ar [])
      else Ar (map (take_last j) l)
  end.

(** Length of the last axis. *)
Fixpoint last_dim (a : nd) : nat :=
  match a with
  | Sc _ => 0
  | Ar l =>
      match l with
      | [] => 0
      | b :: _ => if is_scalar b then length l else last_dim b
      end
  end.

(** [numpy.transpose(a)]: the axes reversed.  The recursion is on the
    number of axes: entry [j] of the result is the transpose of
    [a[..., j]]. *)
Fixpoint transpose_n (n : nat) (a : nd) : nd :=
  match n with
  | 0 => a
  | S n' =>
      match n' with
      | 0 => a
      | S _ =>
          Ar (map (fun j => transpose_n n' (take_last j a))
                  (seq 0 (last_dim a)))
      end
  end.

Definition transpose (a : nd) : nd := transpose_n (ndim a) a.

(** The entries in row-major order, as [a.flat] enumerates them. *)
Fixpoint flatten (a : nd) : list num :=
  match a with
  | Sc x => [x]
  | Ar l => flat_map flatten l
  end.

(** Iteration over the first axis ([for x in a]). *)
Definition entries (a : nd) : list nd :=
  match a with
  | Sc _ => []
  | Ar l => l
  end.

(** [a[k, :]] and [a[k, :, :]]: entry [k] of the first axis, which must
    leave at least [m] further axes for the slices. *)
Definition nd_index_slices (m : nat) (a : nd) (k : nat) : option nd :=
  match nd_index a k with
  | Some r => if m <=? ndim r then Some r else None
  | None => None
  end.

(** Entry at a full multi-index. *)
Fixpoint nd_at (a : nd) (idx : list nat) : option nd :=
  match idx with
  | [] => Some a
  | k :: idx' =>
      match nd_index a k with
      | Some b => nd_at b idx'
      | None => None
      end
  end.

(** Tuple unpacking of an array into exactly two names. *)
Definition unpack2 (a : nd) : option (nd * nd) :=
  match a with
  | Ar [x; y] => Some (x, y)
  | _ => None
  end.

Fixpoint all_some {A : Type} (l : list (option A)) : option (list A) :=
  match l with
  | [] => Some []
  | Some c :: r =>
      match all_some r with Some r' => Some (c :: r') | None => None end
  | None :: _ => None
  end.

(** Elementwise binary operation with numpy broadcasting.  [zipL] is the
    case where the left operand has at least as many axes as the right. *)
Fixpoint zipL (f : num -> num -> num) (a b : nd) : option nd :=
  match a with
  | Sc x =>
      match b with
      | Sc y => Some (Sc (f x y))
      | Ar _ => None
      end
  | Ar la =>
      if ndim b <? ndim a then
        option_map Ar (all_some (map (fun ai => zipL f ai b) la))
      else
        match b with
        | Sc _ => None
        | Ar lb =>
            if length la =? length lb then
              option_map Ar
                ((fix zl (la lb : list nd) : option (list nd) :=
                    match la, lb with
                    | ai :: la', bi :: lb' =>
                        match zipL f ai bi, zl la' lb' with
                        | Some c, Some r => Some (c :: r)
                        | _, _ => None
                        end
                    | _, _ => Some []
                    end) la lb)
            else
              match lb, la with
              | [b0], _ =>
                  option_map Ar (all_some (map (fun ai => zipL f ai b0) la))
              | _, [a0] =>
                  option_map Ar (all_some (map (fun bj => zipL f a0 bj) lb))
              | _, _ => None
              end
        end
  end.

Definition broadcast2 (f : num -> num -> num) (a b : nd) : option nd :=
  if ndim b <=? ndim a then zipL f a b
  else zipL (fun y x => f x y) b a.

End NdArray.

Section NumPy.
Context {num : Type} `{Arith num}.

Local Abbreviation nd := (ndarray num).

(** [a.sum(axis=-1)]: the entries along the last axis are reduced; a
    0-d value is reduced over its single entry. *)
Fixpoint sum_last (a : nd) : nd :=
  match a with
  | Sc x => Sc (nsum [x])
  | Ar l =>
      if forallb is_scalar l then Sc (nsum (scalars l))
      else Ar (map sum_last l)
  end.

(** [abs(a)**2], elementwise. *)
Definition abs_sq (a : nd) : nd := nd_map (fun x => npow (nabs x) 2) a.

(** [numpy.argmin(a)]: index of the first smallest entry of the
    flattened array; raises on an empty one. *)
Fixpoint argmin_from (best : num) (ibest k : nat) (l : list num) : nat :=
  match l with
  | [] => ibest
  | x :: r =>
      if nltb x best then argmin_from x k (S k) r
      else argmin_from best ibest (S k) r
  end.

Definition argmin (a : nd) : option nat :=
  match flatten a with
  | [] => None
  | x :: r => Some (argmin_from x 0 1 r)
  end.

(** [numpy.linspace(start, stop, n)] with the end point included:
    [k*step + start] for [k < n-1], and [stop] itself last. *)
Definition linspace (start stop : num) (n : nat) : nd :=
  match n with
  | 0 => Ar []
  | S m =>
      let step := ndiv (nsub stop start) (nint (Z.of_nat m)) in
      match m with
      | 0 => Ar [Sc start]
      | S _ =>
          Ar (map (fun k => Sc (nadd (nmul (nint (Z.of_nat k)) step) start))
                  (seq 0 m)
              ++ [Sc stop])
      end
  end.

End NumPy.

(** What the script only forwards to numpy, to Python or to the library's
    constants: [pi] (imported from Berreman4x4), [numpy.tanh],
    [numpy.angle], [numpy.linalg.eig] ([None] when it raises) and the
    format specification [{:.1f}]. *)
Class Routines (num : Type) := {
  pi : num;
  ntanh : num -> num;
  nangle : num -> num;
  linalg_eig : ndarray num -> option (ndarray num * ndarray num);
  format_1f : num -> string
}.

(** ** Python values and external calls *)

(** The values exchanged with the outside world.  A library object is
    known by its identity only. *)
Inductive value (num : Type) : Type :=
| VNone
| VInt (n : Z)
| VNum (x : num)
| VStr (s : string)
| VList (l : list (value num))
| VTuple (l : list (value num))
| VArr (a : ndarray num)
| VObj (id : nat).

Arguments VNone {num}.
Arguments VInt {num} n.
Arguments VNum {num} x.
Arguments VStr {num} s.
Arguments VList {num} l.
Arguments VTuple {num} l.
Arguments VArr {num} a.
Arguments VObj {num} id.

(** The functions and methods the script calls outside itself.  A method
    takes its receiver as first argument; [xaxis] is the attribute read
    [ax.xaxis]. *)
Inductive callee : Type :=
| IsotropicNonDispersiveMaterial | IsotropicHalfSpace
| UniaxialNonDispersiveMaterial | rotation_v_theta | rotated
| TwistedMaterial | InhomogeneousLayer | RepeatedLayers | Structure
| getJones | extractCoefficient | circularJones
| set_printoptions | print
| figure | add_subplot | Rectangle | add_patch | plot | legend
| set_title | set_xlabel | set_ylabel | xaxis | get_major_formatter
| set_powerlimits | show.

Record call (num : Type) : Type := mk_call {
  fn : callee;
  args : list (value num);
  kwargs : list (string * value num)
}.

(** An event of a run: a call and the value it returned. *)
Abbreviation event num := (call num * value num)%type.

(** The outside world: the value returned to the [n]-th external call of
    the run. *)
Definition environment (num : Type) : Type := nat -> call num -> value num.

(** ** Programs *)

(** A program returns, raises at a source line, or calls outside and
    continues with the returned value. *)
Inductive prog (num A : Type) : Type :=
| Ret (a : A)
| Raise (line : nat)
| Call (c : call num) (k : value num -> prog num A).

Arguments Ret {num A} a.
Arguments Raise {num A} line.
Arguments Call {num A} c k.

Inductive outcome (A : Type) : Type :=
| Done (a : A)
| Raised (line : nat).

Arguments Done {A} a.
Arguments Raised {A} line.

Section Programs.
Context {num : Type}.

Fixpoint bind {A B : Type} (m : prog num A) (f : A -> prog num B)
    : prog num B :=
  match m with
  | Ret a => f a
  | Raise l => Raise l
  | Call c k => Call c (fun v => bind (k v) f)
  end.

Definition do_call (f : callee) (xs : list (value num))
    (kw : list (string * value num)) : prog num (value num) :=
  Call (mk_call f xs kw) (fun v => Ret v).

(** A numpy or Python operation of the script that may raise. *)
Definition lift {A : Type} (line : nat) (r : option A) : prog num A :=
  match r with
  | Some a => Ret a
  | None => Raise line
  end.

(** A list comprehension whose body calls outside. *)
Fixpoint mapM {A B : Type} (f : A -> prog num B) (l : list A)
    : prog num (list B) :=
  match l with
  | [] => Ret []
  | x :: r => bind (f x) (fun y => bind (mapM f r) (fun ys => Ret (y :: ys)))
  end.

(** The events of a run started at call number [n], and how it ends. *)
Fixpoint trace {A : Type} (o : environment num) (n : nat) (m : prog num A)
    : list (event num) :=
  match m with
  | Ret _ => []
  | Raise _ => []
  | Call c k => (c, o n c) :: trace o (S n) (k (o n c))
  end.

Fixpoint result {A : Type} (o : environment num) (n : nat) (m : prog num A)
    : outcome A :=
  match m with
  | Ret a => Done a
  | Raise l => Raised l
  | Call c k => result o (S n) (k (o n c))
  end.

End Programs.

Declare Scope prog_scope.
Delimit Scope prog_scope with prog.
Notation "x <- m ;; k" := (bind m (fun x => k))
  (at level 61, m at next level, right associativity) : prog_scope.
Notation "m ;;; k" := (bind m (fun _ => k))
  (at level 61, right associativity) : prog_scope.

(** ** Array conversion *)

Section Conversions.
Context {num : Type} `{Arith num}.

(** What numpy makes of a value handed to it as an array: numbers are
    0-d, lists and tuples nest, anything else is refused. *)
Fixpoint to_nd (v : value num) : option (ndarray num) :=
  match v with
  | VNum x => Some (Sc x)
  | VInt n => Some (Sc (nint n))
  | VArr a => Some a
  | VList l => option_map Ar (all_some (map to_nd l))
  | VTuple l => option_map Ar (all_some (map to_nd l))
  | VNone | VStr _ | VObj _ => None
  end.

(** [numpy.asarray(v)]: the nesting must be rectangular. *)
Definition asarray (v : value num) : option (ndarray num) :=
  match to_nd v with
  | Some a => match shape a with Some _ => Some a | None => None end
  | None => None
  end.

(** [numpy.array([...])] of a Python list. *)
Definition np_array (vs : list (value num)) : option (ndarray num) :=
  asarray (VList vs).

(** An entry met while iterating over an array: a numpy scalar or a
    sub-array. *)
Definition value_of_entry (a : ndarray num) : value num :=
  match a with
  | Sc x => VNum x
  | Ar _ => VArr a
  end.

End Conversions.

(** ** The script *)

Module cholesteric.

Local Open Scope string_scope.
Local Open Scope prog_scope.

Definition nl : string := String (Ascii.ascii_of_nat 10) EmptyString.

(** The names bound in the module's namespace when the script ends whose
  values come from outside or from the arrays computed on the way.
  [LC] is the rotated material (line 24) and [power] the power array of
  the circular basis (line 88), both rebound by the script. *)
Record globals (num : Type) : Type := mk_globals {
glass : value num;
front : value num;
back : value num;
LC : value num;
R : value num;
TN : value num;
IL : value num;
L : value num;
s : value num;
J : ndarray num;
T_pp : value num;
R_pp : value num;
T_sp : value num;
R_sp : value num;
total_power : ndarray num;
R_np : ndarray num;
T_np : ndarray num;
i : nat;
T : ndarray num;
eigenvalues : ndarray num;
eigenvectors : ndarray num;
Jc : value num;
power : ndarray num;
R_RR : value num;
T_RR : value num;
T_LL : value num;
R_LL : value num;
fig : value num;
ax : value num;
rectangle : value num;
fmt : value num
}.

Section Script.
Context {num : Type} `{Arith num} `{Routines num}.

(** Lines 19-21, 26, 32-33, 38, 41-44, 48-49: the numbers the script
  computes by itself. *)
Definition no : num := nlit 1.5%Q.
Definition ne : num := nlit 1.6%Q.
Definition Dn : num := nsub ne no.
Definition n_med : num := ndiv (nadd ne no) (nint 2).
Definition p : num := nlit 0.65e-6%Q.
Definition N : Z := 25.
Definition h : num := ndiv (nmul (nint N) p) (nint 2).
Definition Kx : num := nlit 0.0%Q.
Definition lbda_min : num := nlit 0.8e-6%Q.
Definition lbda_max : num := nlit 1.2e-6%Q.
Definition lbda_B : num := nmul p n_med.
Definition lbda_list : ndarray num := linspace lbda_min lbda_max 100.
Definition k0_list : ndarray num :=
nd_map (fun lbda => ndiv (nmul (nint 2) pi) lbda) lbda_list.
Definition R_th : num :=
npow (ntanh (ndiv (nmul (nmul (ndiv Dn n_med) pi) h) p)) 2.
Definition lbda_B1 : num := nmul p no.
Definition lbda_B2 : num := nmul p ne.

(** Line 66: [numpy.argmin(abs(lbda_list-lbda_B))]. *)
Definition stop_band_index : option nat :=
argmin (nd_map nabs (nd_map (fun x => nsub x lbda_B) lbda_list)).

(** Line 67: [J[i,1,:,:]]. *)
Definition transmission_matrix (J : ndarray num) (i : nat)
  : option (ndarray num) :=
match nd_index J i with
| Some Ji => nd_index_slices 2 Ji 1
| None => None
end.

(** Line 62: [power.sum(axis=-1).sum(axis=-1) / 2]. *)
Definition total_power_of (power : ndarray num) : ndarray num :=
nd_map (fun x => ndiv x (nint 2)) (sum_last (sum_last power)).

(** Lines 80, 82, 84: the arrays printed from the eigenvectors. *)
Definition p_normalized (ev : ndarray num) : option (ndarray num) :=
match nd_index_slices 1 ev 0 with
| Some ev0 => broadcast2 ndiv ev ev0
| None => None
end.

Definition s_over_p (ev : ndarray num) : option (ndarray num) :=
match nd_index_slices 1 ev 1 with
| Some ev1 =>
    match nd_index_slices 1 ev 0 with
    | Some ev0 => broadcast2 ndiv ev1 ev0
    | None => None
    end
| None => None
end.

Definition ellipticity (ev : ndarray num) : option (ndarray num) :=
option_map
  (nd_map (fun z => nmul (ndiv (nint 180) pi) (nangle z)))
  (s_over_p ev).

Definition title : string :=
"Right-handed Cholesteric Liquid Crystal, "
++ (format_1f (ndiv (nint N) (nlit 2.0%Q)) ++ " helix pitches").

Definition script : prog num (globals num) :=
(* Materials *)
glass <- do_call IsotropicNonDispersiveMaterial [VNum (nlit 1.55%Q)] [] ;;
front <- do_call IsotropicHalfSpace [glass] [] ;;
let back := front in
(* Liquid crystal oriented along the x direction *)
LC <- do_call UniaxialNonDispersiveMaterial [VNum no; VNum ne] [] ;;
R <- do_call rotation_v_theta
       [VList [VInt 0; VInt 1; VInt 0]; VNum (ndiv pi (nint 2))] [] ;;
LC <- do_call rotated [LC; R] [] ;;
TN <- do_call TwistedMaterial [LC; VNum (ndiv p (nint 2))]
        [("angle", VNum pi); ("div", VInt 40)] ;;
(* Inhomogeneous layer, repeated layer, and structure *)
IL <- do_call InhomogeneousLayer [TN] [] ;;
L <- do_call RepeatedLayers [VList [IL]; VInt N] [] ;;
s <- do_call Structure [front; VList [L]; back] [] ;;
(* Calculation with Berreman4x4 *)
Js <- mapM (fun k0 => do_call getJones [s; VNum Kx; value_of_entry k0] [])
        (entries k0_list) ;;
J <- lift 53 (np_array Js) ;;
let power := abs_sq J in
T_pp <- do_call extractCoefficient [VArr power; VStr "t_pp"] [] ;;
R_pp <- do_call extractCoefficient [VArr power; VStr "r_pp"] [] ;;
T_sp <- do_call extractCoefficient [VArr power; VStr "t_sp"] [] ;;
R_sp <- do_call extractCoefficient [VArr power; VStr "r_sp"] [] ;;
(* Reflection and transmission coefficients for unpolarized light *)
let total_power := total_power_of power in
RT <- lift 63 (unpack2 (transpose total_power)) ;;
let R_np := fst RT in
let T_np := snd RT in
(* Eigenvectors of the transmission matrix in the middle of the stop-band *)
i <- lift 66 stop_band_index ;;
T <- lift 67 (transmission_matrix J i) ;;
eig <- lift 68 (linalg_eig T) ;;
let eigenvalues := fst eig in
let eigenvectors := snd eig in
do_call set_printoptions [] [("precision", VInt 3)] ;;;
do_call print
  [VStr (nl ++ "Transmission in the middle of the stop-band..." ++ nl)] [] ;;;
do_call print [VStr "Eigenvalues of the Jones transmission matrix:"] [] ;;;
do_call print [VArr eigenvalues] [] ;;;
do_call print [VStr "Corresponding power transmission:"] [] ;;;
do_call print [VArr (abs_sq eigenvalues)] [] ;;;
do_call print [VStr "Corresponding eigenvectors:"] [] ;;;
do_call print [VArr eigenvectors] [] ;;;
do_call print [VStr "Normalization to the 'p' componant:"] [] ;;;
normalized <- lift 80 (p_normalized eigenvectors) ;;
do_call print [VArr normalized] [] ;;;
do_call print [VStr "Ratio 's'/'p':"] [] ;;;
ratio <- lift 82 (s_over_p eigenvectors) ;;
do_call print [VArr (nd_map nabs ratio)] [] ;;;
do_call print [VStr "Ellipticity angle (°) (+90°: L, -90°: R)"] [] ;;;
angles <- lift 84 (ellipticity eigenvectors) ;;
do_call print [VArr angles] [] ;;;
(* Jones matrices for the circular wave basis *)
Jc <- do_call circularJones [VArr J] [] ;;
Jc_array <- lift 88 (asarray Jc) ;;
let power := abs_sq Jc_array in
R_RR <- do_call extractCoefficient [VArr power; VStr "r_RR"] [] ;;
T_RR <- do_call extractCoefficient [VArr power; VStr "t_RR"] [] ;;
T_LL <- do_call extractCoefficient [VArr power; VStr "t_LL"] [] ;;
R_LL <- do_call extractCoefficient [VArr power; VStr "r_LL"] [] ;;
(* Plotting *)
fig <- do_call figure [] [] ;;
ax <- do_call add_subplot [fig; VStr "111"] [] ;;
rectangle <- do_call Rectangle
               [VTuple [VNum lbda_B1; VInt 0];
                VNum (nsub lbda_B2 lbda_B1); VNum R_th]
               [("color", VStr "cyan")] ;;
do_call add_patch [ax; rectangle] [] ;;;
do_call plot [ax; VArr lbda_list; R_RR] [("label", VStr "R_RR")] ;;;
do_call plot [ax; VArr lbda_list; T_RR] [("label", VStr "T_RR")] ;;;
do_call legend [ax]
  [("loc", VStr "center right");
   ("bbox_to_anchor", VTuple [VNum (nlit 1.00%Q); VNum (nlit 0.50%Q)])] ;;;
do_call set_title [ax; VStr title] [] ;;;
do_call set_xlabel [ax; VStr "Wavelength $\lambda_0$ (m)"] [] ;;;
do_call set_ylabel [ax; VStr "Power transmission $T$ and reflexion $R$"] [] ;;;
ax_xaxis <- do_call xaxis [ax] [] ;;
fmt <- do_call get_major_formatter [ax_xaxis] [] ;;
do_call set_powerlimits [fmt; VTuple [VInt (-3); VInt 3]] [] ;;;
do_call show [] [] ;;;
Ret (mk_globals glass front back LC R TN IL L s J T_pp R_pp T_sp R_sp
       total_power R_np T_np i T eigenvalues eigenvectors Jc power
       R_RR T_RR T_LL R_LL fig ax rectangle fmt).

(** A run of the script from its first line. *)
Definition run (o : environment num)
  : list (event num) * outcome (globals num) :=
(trace o 0 script, result o 0 script).

End Script.

End cholesteric.

(** ** Two instances of the numbers *)

(** Exact rational arithmetic, every result in lowest terms.  It is the
    reference for what the decimal literals of the script denote. *)
Module ExactQ.
Local Open Scope Q_scope.

#[export] Instance arith : Arith Q := {
  nlit q := Qred q;
  nadd x y := Qred (Qplus x y);
  nsub x y := Qred (Qminus x y);
  nmul x y := Qred (Qmult x y);
  ndiv x y := Qred (Qdiv x y);
  nabs x := Qabs x;
  npow x n := Qred (Qpower x n);
  nltb x y := negb (Qle_bool y x);
  nsum l := Qred (fold_left Qplus l (0 # 1))
}.

(** The differences between consecutive numbers of a list. *)
Definition steps (l : list Q) : list Q :=
  map (fun xy => Qred (snd xy - fst xy)) (combine l (tl l)).

(** Entry [k] of [l] is at least as close to [b] as every entry. *)
Definition closest (b : Q) (l : list Q) (k : nat) : bool :=
  match nth_error l k with
  | Some c => forallb (fun x => Qle_bool (Qabs (c - b)) (Qabs (x - b))) l
  | None => false
  end.

End ExactQ.

(** IEEE 754 binary64, the arithmetic of Python floats and of numpy's
    float64.  A literal whose numerator and denominator are below 2^53 is
    rounded once, by the division, as Python's parser rounds it. *)
Module Binary64.

Definition of_Z (z : Z) : float :=
  match z with
  | Z0 => PrimFloat.of_uint63 0
  | Zpos _ => PrimFloat.of_uint63 (Uint63.of_Z z)
  | Zneg q => PrimFloat.opp (PrimFloat.of_uint63 (Uint63.of_Z (Zpos q)))
  end.

Definition pow (x : float) (n : Z) : float :=
  match n with
  | Z0 => PrimFloat.of_uint63 1
  | Zpos q => Pos.iter (PrimFloat.mul x) (PrimFloat.of_uint63 1) q
  | Zneg q =>
      PrimFloat.div (PrimFloat.of_uint63 1)
        (Pos.iter (PrimFloat.mul x) (PrimFloat.of_uint63 1) q)
  end.

#[export] Instance arith : Arith float := {
  nlit q := PrimFloat.div (of_Z (Qnum q)) (of_Z (Zpos (Qden q)));
  nadd := PrimFloat.add;
  nsub := PrimFloat.sub;
  nmul := PrimFloat.mul;
  ndiv := PrimFloat.div;
  nabs := PrimFloat.abs;
  npow := pow;
  nltb := PrimFloat.ltb;
  nsum l := fold_left PrimFloat.add l (PrimFloat.of_uint63 0)
}.

End Binary64.

(** The functions of the Berreman4x4 library. *)
Definition is_library_fn (f : callee) : bool :=
  match f with
  | IsotropicNonDispersiveMaterial | IsotropicHalfSpace
  | UniaxialNonDispersiveMaterial | rotation_v_theta | rotated
  | TwistedMaterial | InhomogeneousLayer | RepeatedLayers | Structure
  | getJones | extractCoefficient | circularJones => true
  | _ => false
  end.

(** ** A sample environment *)

(** A stand-in for the library over the rationals, used to run the script
    on concrete data: every object is known by the number of the call that
    made it, the structure reflects a quarter of the p-polarised power at
    every wavelength, the circular basis is taken equal to the linear one,
    and the eigen-solver knows diagonal 2x2 matrices only.  [pi], [tanh]
    and the float format are rational stand-ins. *)
Module Sample.
Import ExactQ.
Local Open Scope Q_scope.

Definition eig_diag (t : ndarray Q)
    : option (ndarray Q * ndarray Q) :=
  match t with
  | Ar [Ar [Sc a; Sc b]; Ar [Sc c; Sc d]] =>
      if (Qeq_bool b (0 # 1) && Qeq_bool c (0 # 1))%bool
      then Some (Ar [Sc a; Sc d],
                 Ar [Ar [Sc (1 # 1); Sc (0 # 1)]; Ar [Sc (0 # 1); Sc (1 # 1)]])
      else None
  | _ => None
  end.

Definition one_decimal (x : Q) : string :=
  let t := ((Qnum x * 10 * 2 + Zpos (Qden x)) / (2 * Zpos (Qden x)))%Z in
  (DecimalString.NilZero.string_of_int (Z.to_int (t / 10))
   ++ "." ++ DecimalString.NilZero.string_of_int (Z.to_int (t mod 10)))%string.

#[export] Instance routines : Routines Q := {
  pi := 355 # 113;
  ntanh x := Qred (Qdiv x (Qplus (1 # 1) (Qabs x)));
  nangle x := if Qle_bool (0 # 1) x then 0 # 1 else 355 # 113;
  linalg_eig := eig_diag;
  format_1f := one_decimal
}.

Definition matrix (a b c d : Q) : value Q :=
  VArr (Ar [Ar [Sc a; Sc b]; Ar [Sc c; Sc d]]).

(** [power[:, k, a, b]] when [power] is a stack of pairs of matrices. *)
Definition coefficient (k a b : nat) (power : value Q) : value Q :=
  match power with
  | VArr (Ar l) =>
      VArr (Ar (map (fun x =>
                       match nd_at x [k; a; b] with
                       | Some y => y
                       | None => Ar []
                       end) l))
  | _ => VNone
  end.

Definition library : environment Q := fun n c =>
  match fn c with
  | getJones =>
      VTuple [matrix (1 # 2) (0 # 1) (0 # 1) (0 # 1);
              matrix (1 # 2) (0 # 1) (0 # 1) (1 # 1)]
  | extractCoefficient =>
      match args c with
      | [pw; VStr name] =>
          if String.eqb name "t_pp" then coefficient 1 0 0 pw
          else if String.eqb name "r_pp" then coefficient 0 0 0 pw
          else if String.eqb name "t_sp" then coefficient 1 1 0 pw
          else if String.eqb name "r_sp" then coefficient 0 1 0 pw
          else if String.eqb name "r_RR" then coefficient 0 0 0 pw
          else if String.eqb name "t_RR" then coefficient 1 0 0 pw
          else if String.eqb name "t_LL" then coefficient 1 1 1 pw
          else if String.eqb name "r_LL" then coefficient 0 1 1 pw
          else VNone
      | _ => VNone
      end
  | circularJones =>
      match args c with
      | [j] => j
      | _ => VNone
      end
  | set_printoptions | print | add_patch | legend | set_title
  | set_xlabel | set_ylabel | set_powerlimits | show => VNone
  | plot => VList [VObj n]
  | _ => VObj n
  end.

(** A library whose solver returns a single 2x2 matrix, and one whose
    solver returns a single 4x4 matrix. *)
Definition library_2x2 : environment Q := fun n c =>
  match fn c with
  | getJones => matrix (1 # 2) (0 # 1) (0 # 1) (1 # 1)
  | _ => library n c
  end.

Definition library_4x4 : environment Q := fun n c =>
  match fn c with
  | getJones =>
      VArr (Ar (map (fun r =>
                       Ar (map (fun k => Sc (if Nat.eqb r k then 1 # 1 else 0 # 1))
                               (seq 0 4)))
                    (seq 0 4)))
  | _ => library n c
  end.

(** The same library in front of a different console and plotting
    backend: what [print] and pyplot return differs. *)
Definition library_other_backend : environment Q := fun n c =>
  if is_library_fn (fn c) then library n c
  else match fn c with
       | print => VInt 0
       | _ => VObj (1000 + n)
       end.

End Sample.


(** ** Reading a trace *)

Section Traces.
Context {num : Type}.

Definition callee_eqb (f g : callee) : bool :=
  if (ltac:(decide equality) : {f = g} + {f <> g}) then true else false.

(** The names of the calls of a trace, in order. *)
Definition names (tr : list (event num)) : list callee :=
  map (fun e => fn (fst e)) tr.

(** The events of a trace that call [f]. *)
Definition calls_to (f : callee) (tr : list (event num)) : list (event num) :=
  filter (fun e => callee_eqb (fn (fst e)) f) tr.

(** The values a list of calls is answered with, the first of them
    being call number [n]. *)
Fixpoint answers (o : environment num) (n : nat) (cs : list (call num))
    : list (value num) :=
  match cs with
  | [] => []
  | c :: r => o n c :: answers o (S n) r
  end.

(** The values the library returned during a run. *)
Definition library_returns (tr : list (event num)) : list (value num) :=
  map snd (filter (fun e => is_library_fn (fn (fst e))) tr).

(** What a call outside the library hands to the console or to the
    plotting backend: the function, its arguments other than the objects
    pyplot itself returned (the receiver of a method, the patch given to
    [add_patch]), and its keywords. *)
Definition shown (c : call num)
    : option (callee * list (value num) * list (string * value num)) :=
  match fn c with
  | print | set_printoptions | figure | Rectangle | show =>
      Some (fn c, args c, kwargs c)
  | add_subplot | plot | legend | set_title | set_xlabel | set_ylabel
  | set_powerlimits =>
      Some (fn c, tl (args c), kwargs c)
  | add_patch | xaxis | get_major_formatter =>
      Some (fn c, [], kwargs c)
  | _ => None
  end.

(** All that a run shows, in order. *)
Fixpoint display (tr : list (event num))
    : list (callee * list (value num) * list (string * value num)) :=
  match tr with
  | [] => []
  | e :: r =>
      match shown (fst e) with
      | Some d => d :: display r
      | None => display r
      end
  end.

End Traces.


(** ** The events of a completed run *)

Section Completed.
Context {num : Type} `{Arith num} `{Routines num}.

Import cholesteric.
Local Open Scope string_scope.

(** The solver calls of the sweep, one per entry of [k0_list]. *)
Definition solver_calls (s : value num) : list (call num) :=
  map (fun k0 => mk_call getJones [s; VNum Kx; value_of_entry k0] [])
      (entries k0_list).

(** A call whose returned value the script does not keep. *)
Definition unkept (o : environment num) (n : nat) (c : call num) : event num :=
  (c, o n c).

(** Lines 15-35. [LC0] is the material of line 22, before its rotation. *)
Definition construction_events (g : globals num) (LC0 : value num)
    : list (event num) :=
  [ (mk_call IsotropicNonDispersiveMaterial [VNum (nlit 1.55%Q)] [], glass g);
    (mk_call IsotropicHalfSpace [glass g] [], front g);
    (mk_call UniaxialNonDispersiveMaterial [VNum no; VNum ne] [], LC0);
    (mk_call rotation_v_theta
       [VList [VInt 0; VInt 1; VInt 0]; VNum (ndiv pi (nint 2))] [], R g);
    (mk_call rotated [LC0; R g] [], LC g);
    (mk_call TwistedMaterial [LC g; VNum (ndiv p (nint 2))]
       [("angle", VNum pi); ("div", VInt 40)], TN g);
    (mk_call InhomogeneousLayer [TN g] [], IL g);
    (mk_call RepeatedLayers [VList [IL g]; VInt N] [], L g);
    (mk_call Structure [front g; VList [L g]; back g] [], s g) ].

(** Line 53. *)
Definition solver_events (g : globals num) (vs : list (value num))
    : list (event num) :=
  combine (solver_calls (s g)) vs.

(** Lines 55-58. *)
Definition linear_events (g : globals num) : list (event num) :=
  [ (mk_call extractCoefficient [VArr (abs_sq (J g)); VStr "t_pp"] [], T_pp g);
    (mk_call extractCoefficient [VArr (abs_sq (J g)); VStr "r_pp"] [], R_pp g);
    (mk_call extractCoefficient [VArr (abs_sq (J g)); VStr "t_sp"] [], T_sp g);
    (mk_call extractCoefficient [VArr (abs_sq (J g)); VStr "r_sp"] [], R_sp g) ].

(** Lines 69-84. *)
Definition diagnostic_calls (g : globals num)
    (normalized ratio angles : ndarray num) : list (call num) :=
  [ mk_call set_printoptions [] [("precision", VInt 3)];
    mk_call print
      [VStr (nl ++ "Transmission in the middle of the stop-band..." ++ nl)] [];
    mk_call print [VStr "Eigenvalues of the Jones transmission matrix:"] [];
    mk_call print [VArr (eigenvalues g)] [];
    mk_call print [VStr "Corresponding power transmission:"] [];
    mk_call print [VArr (abs_sq (eigenvalues g))] [];
    mk_call print [VStr "Corresponding eigenvectors:"] [];
    mk_call print [VArr (eigenvectors g)] [];
    mk_call print [VStr "Normalization to the 'p' componant:"] [];
    mk_call print [VArr normalized] [];
    mk_call print [VStr "Ratio 's'/'p':"] [];
    mk_call print [VArr (nd_map nabs ratio)] [];
    mk_call print [VStr "Ellipticity angle (°) (+90°: L, -90°: R)"] [];
    mk_call print [VArr angles] [] ].

(** Lines 87-98. *)
Definition circular_events (g : globals num) : list (event num) :=
  [ (mk_call circularJones [VArr (J g)] [], Jc g);
    (mk_call extractCoefficient [VArr (power g); VStr "r_RR"] [], R_RR g);
    (mk_call extractCoefficient [VArr (power g); VStr "t_RR"] [], T_RR g);
    (mk_call extractCoefficient [VArr (power g); VStr "t_LL"] [], T_LL g);
    (mk_call extractCoefficient [VArr (power g); VStr "r_LL"] [], R_LL g) ].

(** Lines 102-128. [ax_xaxis] is the value of [ax.xaxis]. *)
Definition plotting_events (o : environment num) (g : globals num)
    (ax_xaxis : value num) : list (event num) :=
  [ (mk_call figure [] [], fig g);
    (mk_call add_subplot [fig g; VStr "111"] [], ax g);
    (mk_call Rectangle
       [VTuple [VNum lbda_B1; VInt 0]; VNum (nsub lbda_B2 lbda_B1); VNum R_th]
       [("color", VStr "cyan")], rectangle g);
    unkept o 135 (mk_call add_patch [ax g; rectangle g] []);
    unkept o 136
      (mk_call plot [ax g; VArr lbda_list; R_RR g] [("label", VStr "R_RR")]);
    unkept o 137
      (mk_call plot [ax g; VArr lbda_list; T_RR g] [("label", VStr "T_RR")]);
    unkept o 138
      (mk_call legend [ax g]
         [("loc", VStr "center right");
          ("bbox_to_anchor", VTuple [VNum (nlit 1.00%Q); VNum (nlit 0.50%Q)])]);
    unkept o 139 (mk_call set_title [ax g; VStr title] []);
    unkept o 140 (mk_call set_xlabel [ax g; VStr "Wavelength $\lambda_0$ (m)"] []);
    unkept o 141
      (mk_call set_ylabel
         [ax g; VStr "Power transmission $T$ and reflexion $R$"] []);
    (mk_call xaxis [ax g] [], ax_xaxis);
    (mk_call get_major_formatter [ax_xaxis] [], fmt g);
    unkept o 144 (mk_call set_powerlimits [fmt g; VTuple [VInt (-3); VInt 3]] []);
    unkept o 145 (mk_call show [] []) ].

Definition script_events (o : environment num) (g : globals num)
    (LC0 : value num) (vs : list (value num))
    (normalized ratio angles : ndarray num) (ax_xaxis : value num)
    : list (event num) :=
  construction_events g LC0
  ++ solver_events g vs
  ++ linear_events g
  ++ combine (diagnostic_calls g normalized ratio angles)
             (answers o 113 (diagnostic_calls g normalized ratio angles))
  ++ circular_events g
  ++ plotting_events o g ax_xaxis.

(** The order in which a run calls outside: construction, the solver
    loop, the coefficients of the linear basis, the diagnostics, the
    circular basis, the chart. *)
Definition construction : list callee :=
  [ IsotropicNonDispersiveMaterial; IsotropicHalfSpace;
    UniaxialNonDispersiveMaterial; rotation_v_theta; rotated;
    TwistedMaterial; InhomogeneousLayer; RepeatedLayers; Structure ].
Definition solver_loop : list callee := repeat getJones 100.
Definition linear_basis : list callee := repeat extractCoefficient 4.
Definition diagnostics : list callee := set_printoptions :: repeat print 13.
Definition circular_basis : list callee :=
  circularJones :: repeat extractCoefficient 4.
Definition plotting : list callee :=
  [ figure; add_subplot; Rectangle; add_patch; plot; plot; legend; set_title;
    set_xlabel; set_ylabel; xaxis; get_major_formatter; set_powerlimits; show ].

Definition schedule : list callee :=
  construction ++ solver_loop ++ linear_basis ++ diagnostics
  ++ circular_basis ++ plotting.

(** How far along the schedule a run gets, by the way it ends. *)
Definition reached (r : outcome (globals num)) : nat :=
  match r with
  | Done _ => 146
  | Raised 53 => 109
  | Raised 63 | Raised 66 | Raised 67 | Raised 68 => 113
  | Raised 80 => 122
  | Raised 82 => 124
  | Raised 84 => 126
  | Raised 88 => 128
  | Raised _ => 0
  end.

End Completed.

(** ** Pairs of Jones matrices, and what the solver may return *)

Section Vocabulary.
Context {num : Type} `{Arith num} `{Routines num}.

Import cholesteric.

(** A 2x2 matrix as numpy nests it. *)
Definition matrix22 (a b c d : num) : ndarray num :=
  Ar [Ar [Sc a; Sc b]; Ar [Sc c; Sc d]].

(** The reflection and the transmission Jones matrices of one call. *)
Record jones_pair : Type := mk_jones {
  r00 : num; r01 : num; r10 : num; r11 : num;
  t00 : num; t01 : num; t10 : num; t11 : num
}.

Definition reflection (j : jones_pair) : ndarray num :=
  matrix22 (r00 j) (r01 j) (r10 j) (r11 j).

Definition transmission (j : jones_pair) : ndarray num :=
  matrix22 (t00 j) (t01 j) (t10 j) (t11 j).

Definition nd_of_pair (j : jones_pair) : ndarray num :=
  Ar [reflection j; transmission j].

(** Half the sum of the squared moduli of the four entries of a matrix,
    summed along the rows first as [sum(axis=-1).sum(axis=-1)] does. *)
Definition half_power (a b c d : num) : num :=
  ndiv (nsum [nsum [npow (nabs a) 2; npow (nabs b) 2];
              nsum [npow (nabs c) 2; npow (nabs d) 2]])
       (nint 2).

Definition has_shape (sh : list nat) (v : value num) : bool :=
  match asarray v with
  | Some a =>
      match shape a with
      | Some sh' => if list_eq_dec Nat.eq_dec sh' sh then true else false
      | None => false
      end
  | None => false
  end.

(** What the script needs of a solver result: a pair of 2x2 matrices. *)
Definition returns_pair (v : value num) : bool := has_shape [2; 2; 2] v.

(** Modelled from the spec: Structure.getJones is not among the sources;
    the specification gives it the contract "return a 2x2 or 4x4 complex
    Jones/scattering matrix". *)
Definition returns_matrix (v : value num) : bool :=
  (has_shape [2; 2] v || has_shape [4; 4] v)%bool.

(** Events 9 to 108 of a run, the loop of line 53, and the values the
    solver returned there. *)
Definition sweep_events (o : environment num) : list (event num) :=
  firstn 100 (skipn 9 (trace o 0 script)).

Definition solver_answers (o : environment num) : list (value num) :=
  map snd (sweep_events o).

(** The solver calls as the specification words them: one per wavelength
    of the sweep, with [Kx = 0.0] and [k0 = 2 pi / lambda]. *)
Definition sweep_calls (s : value num) : list (call num) :=
  map (fun lbda =>
         mk_call getJones
           [s; VNum (nlit 0.0%Q); VNum (ndiv (nmul (nint 2) pi) lbda)] [])
      (flatten lbda_list).

(** Strictly increasing, by the comparison of the numbers. *)
Fixpoint increasing (l : list num) : bool :=
  match l with
  | [] => true
  | x :: r =>
      match r with
      | [] => true
      | y :: _ => (nltb x y && increasing r)%bool
      end
  end.

(** Two programs that proceed in step: they make the same library calls
    and continue alike on the same returned value; elsewhere they show the
    same thing to the user, whatever is returned to them; and they end
    together, with values related by [post]. *)
Inductive in_step {A : Type} (post : A -> A -> Prop)
    : prog num A -> prog num A -> Prop :=
| in_step_ret a1 a2 : post a1 a2 -> in_step post (Ret a1) (Ret a2)
| in_step_raise l : in_step post (Raise l) (Raise l)
| in_step_library c k1 k2 :
    is_library_fn (fn c) = true ->
    (forall v, in_step post (k1 v) (k2 v)) ->
    in_step post (Call c k1) (Call c k2)
| in_step_other c1 c2 k1 k2 :
    is_library_fn (fn c1) = false ->
    is_library_fn (fn c2) = false ->
    shown c1 = shown c2 ->
    (forall v1 v2, in_step post (k1 v1) (k2 v2)) ->
    in_step post (Call c1 k1) (Call c2 k2).

(** What line 62 leaves of one pair: the two halved sums. *)
Definition powers (j : jones_pair) : ndarray num :=
  Ar [Sc (half_power (r00 j) (r01 j) (r10 j) (r11 j));
      Sc (half_power (t00 j) (t01 j) (t10 j) (t11 j))].

(** How two runs end together. *)
Definition ends_alike {A : Type} (post : A -> A -> Prop)
    (r1 r2 : outcome A) : Prop :=
  match r1, r2 with
  | Done a1, Done a2 => post a1 a2
  | Raised l1, Raised l2 => l1 = l2
  | _, _ => False
  end.

(** The namespace without the objects pyplot returned. *)
Definition without_plot (g : globals num) : globals num :=
  mk_globals (glass g) (front g) (back g) (LC g) (R g) (TN g) (IL g) (L g)
    (s g) (J g) (T_pp g) (R_pp g) (T_sp g) (R_sp g) (total_power g) (R_np g)
    (T_np g) (i g) (T g) (eigenvalues g) (eigenvectors g) (Jc g) (power g)
    (R_RR g) (T_RR g) (T_LL g) (R_LL g) VNone VNone VNone VNone.

End Vocabulary.

Arguments jones_pair : clear implicits.

(** ** What decides how a run ends *)

Section Ending.
Context {num : Type} `{Arith num} `{Routines num}.

Import cholesteric.

(** The call of line 87. *)
Definition circular_call (J0 : ndarray num) : call num :=
  mk_call circularJones [VArr J0] [].

(** The first line of the script that raises, followed through the
    operations that can: the conversion of line 53, the unpacking of line
    63, [argmin], the indexing of line 67, the eigen-solver, the three
    array expressions printed at lines 80 to 84, and the conversion of
    what [circularJones] returned, which is call number 127.  [None] when
    none of them raises. *)
Definition first_failure (o : environment num) : option nat :=
  match np_array (solver_answers o) with
  | None => Some 53
  | Some J0 =>
  match unpack2 (transpose (total_power_of (abs_sq J0))) with
  | None => Some 63
  | Some _ =>
  match stop_band_index with
  | None => Some 66
  | Some k =>
  match transmission_matrix J0 k with
  | None => Some 67
  | Some t =>
  match linalg_eig t with
  | None => Some 68
  | Some eig =>
  match p_normalized (snd eig) with
  | None => Some 80
  | Some _ =>
  match s_over_p (snd eig) with
  | None => Some 82
  | Some _ =>
  match ellipticity (snd eig) with
  | None => Some 84
  | Some _ =>
  match asarray (o 127 (circular_call J0)) with
  | None => Some 88
  | Some _ => None
  end end end end end end end end end.

(** The line at which a run ended, [None] for a completed one. *)
Definition raised_at {A : Type} (r : outcome A) : option nat :=
  match r with
  | Done _ => None
  | Raised l => Some l
  end.

(** The matrix handed to the eigen-solver at line 68. *)
Definition stop_band_matrix (o : environment num) : option (ndarray num) :=
  match np_array (solver_answers o), stop_band_index with
  | Some J0, Some k => transmission_matrix J0 k
  | _, _ => None
  end.

End Ending.

(** ** Vectors and matrices *)

Section Matrices.
Context {num : Type}.

(** A 1-d and a 2-d array as numpy nests them. *)
Definition vector (xs : list num) : ndarray num := Ar (map Sc xs).

Definition rows (xss : list (list num)) : ndarray num := Ar (map vector xss).

(** Two lists combined entry by entry. *)
Definition map2 (f : num -> num -> num) (xs ys : list num) : list num :=
  map (fun xy => f (fst xy) (snd xy)) (combine xs ys).

End Matrices.

(** ** More sample environments *)

Module Samples.
Import ExactQ.
Import Sample.
Local Open Scope Q_scope.

(** A library that answers the solver and [circularJones] as the sample
    one does and returns [None] everywhere else. *)
Definition library_mute : environment Q := fun n c =>
  match fn c with
  | getJones | circularJones => library n c
  | _ => VNone
  end.

(** A library whose transmission matrix couples the two polarisations,
    which the sample eigen-solver refuses. *)
Definition library_coupled : environment Q := fun n c =>
  match fn c with
  | getJones =>
      VTuple [matrix (1 # 2) (0 # 1) (0 # 1) (0 # 1);
              matrix (1 # 2) (1 # 4) (1 # 4) (1 # 1)]
  | _ => library n c
  end.

(** A library whose [circularJones] returns no array. *)
Definition library_no_circular : environment Q := fun n c =>
  match fn c with
  | circularJones => VNone
  | _ => library n c
  end.

End Samples.

(** ** The distances compared at line 66 *)

Section Distances.
Context {num : Type} `{Arith num}.

Import cholesteric.


End Distances.

(** * Properties *)

(** ** Lists *)

Section Lists.

Lemma length2_inv {A} (l : list A) : length l = 2 -> exists x y, l = [x; y].
Proof. destruct l as [| x [| y [| z l]]]; cbn; try discriminate; eauto. Qed.

Lemma firstn_app_exact {A} n (l r : list A) :
  length l = n -> firstn n (l ++ r) = l.
Proof.
  intros <-. now rewrite firstn_app, Nat.sub_diag, firstn_all, app_nil_r.
Qed.

Lemma In_firstn {A} (x : A) n l : In x (firstn n l) -> In x l.
Proof.
  revert l; induction n as [| n IH]; intros [| y l]; cbn; try tauto.
  intros [-> | Hx]; auto.
Qed.

Lemma skipn_firstn {A} m n (l : list A) :
  skipn m (firstn n l) = firstn (n - m) (skipn m l).
Proof.
  revert n l; induction m as [| m IH]; intros n l.
  - now rewrite Nat.sub_0_r.
  - destruct n as [| n]; [now destruct l |].
    destruct l as [| x l]; cbn [firstn skipn Nat.sub].
    + now rewrite firstn_nil.
    + apply IH.
Qed.

Lemma nth_error_firstn_Some {A} n (l : list A) k x :
  nth_error (firstn n l) k = Some x -> nth_error l k = Some x /\ k < n.
Proof.
  revert l k; induction n as [| n IH]; intros l k; cbn [firstn].
  - now destruct k.
  - destruct l as [| y l]; [now destruct k |].
    destruct k as [| k]; cbn [nth_error].
    + intros E; split; [exact E | lia].
    + intros E. destruct (IH _ _ E). split; [assumption | lia].
Qed.

Lemma nth_error_of_firstn {A} n (l : list A) k :
  k < n -> nth_error l k = nth_error (firstn n l) k.
Proof.
  revert l k; induction n as [| n IH]; intros l k Hk; [lia |].
  destruct l as [| y l]; [reflexivity |].
  destruct k as [| k]; cbn [firstn nth_error]; [reflexivity |].
  apply IH. lia.
Qed.

Lemma map_snd_combine {A B} (cs : list A) : forall vs : list B,
  length cs = length vs -> map snd (combine cs vs) = vs.
Proof.
  induction cs as [| c cs IH]; intros [| v vs] E; cbn in *;
    try discriminate; auto.
  f_equal. apply IH. now injection E.
Qed.

Lemma all_some_map {A B} (f : A -> option B) (g : A -> B) l :
  (forall x, In x l -> f x = Some (g x)) ->
  all_some (map f l) = Some (map g l).
Proof.
  induction l as [| x l IH]; intros Hf; cbn [map all_some]; [reflexivity |].
  rewrite (Hf x (or_introl eq_refl)), IH; auto.
  intros y Hy; apply Hf; now right.
Qed.

Lemma all_some_nth {A} (l : list (option A)) l' :
  all_some l = Some l' ->
  forall j, nth_error l j = option_map Some (nth_error l' j).
Proof.
  revert l'; induction l as [| x l IH]; intros l' E j; cbn [all_some] in E.
  - injection E as <-. now destruct j.
  - destruct x as [c |]; [| discriminate].
    destruct (all_some l) as [r |]; [| discriminate].
    injection E as <-. destruct j; cbn [nth_error option_map]; auto.
Qed.

Lemma all_some_length {A} (l : list (option A)) l' :
  all_some l = Some l' -> length l' = length l.
Proof.
  revert l'; induction l as [| x l IH]; intros l' E; cbn [all_some] in E.
  - now injection E as <-.
  - destruct x as [c |]; [| discriminate].
    destruct (all_some l) as [r |]; [| discriminate].
    injection E as <-. cbn [length]. f_equal; auto.
Qed.

Lemma callee_eqb_eq f g : callee_eqb f g = true <-> f = g.
Proof.
  unfold callee_eqb. destruct (_ : {f = g} + {f <> g}); split; congruence.
Qed.

End Lists.

(** ** Arrays and their shapes *)

Section Arrays.
Context {num : Type}.

Lemma ndarray_ind' (P : ndarray num -> Prop) :
  (forall x, P (Sc x)) ->
  (forall l, Forall P l -> P (Ar l)) ->
  forall a, P a.
Proof.
  intros HSc HAr.
  apply (ndarray_rect' P (Forall P)); auto.
Qed.

Lemma nd_index_map (f : num -> num) (a : ndarray num) k :
  nd_index (nd_map f a) k = option_map (nd_map f) (nd_index a k).
Proof.
  destruct a as [x | l]; cbn [nd_map nd_index]; [reflexivity |].
  apply nth_error_map.
Qed.

Lemma nd_at_map (f : num -> num) (idx : list nat) : forall a : ndarray num,
  nd_at (nd_map f a) idx = option_map (nd_map f) (nd_at a idx).
Proof.
  induction idx as [| k idx IH]; intros a; cbn [nd_at]; [reflexivity |].
  rewrite nd_index_map. destruct (nd_index a k); cbn [option_map]; auto.
Qed.

Lemma shape_Ar_inv (l : list (ndarray num)) n sh :
  shape (Ar l) = Some (n :: sh) ->
  length l = n /\ forall a, In a l -> shape a = Some sh.
Proof.
  destruct l as [| b l']; cbn [shape].
  - intros E; injection E as <- <-. split; [reflexivity | intros a []].
  - destruct (shape b) as [shb |] eqn:Eb; [| discriminate].
    destruct (forallb _ l') eqn:Ef; [| discriminate].
    intros E; injection E as <- <-. split; [reflexivity |].
    intros a [<- | Ha]; [exact Eb |].
    rewrite forallb_forall in Ef. specialize (Ef a Ha).
    destruct (shape a) as [sha |]; [| discriminate].
    destruct (list_eq_dec Nat.eq_dec sha shb); [now subst | discriminate].
Qed.

Lemma shape_Ar_intro (b : ndarray num) l sh :
  (forall a, In a (b :: l) -> shape a = Some sh) ->
  shape (Ar (b :: l)) = Some (length (b :: l) :: sh).
Proof.
  intros Hs. cbn [shape]. rewrite (Hs b (or_introl eq_refl)).
  replace (forallb _ l) with true; [reflexivity |].
  symmetry; apply forallb_forall. intros a Ha.
  rewrite (Hs a (or_intror Ha)).
  now destruct (list_eq_dec Nat.eq_dec sh sh).
Qed.

Lemma shape_all (l : list (ndarray num)) sh :
  l <> [] ->
  (forall a, In a l -> shape a = Some sh) ->
  shape (Ar l) = Some (length l :: sh).
Proof.
  destruct l as [| b l]; [congruence |]. intros _. apply shape_Ar_intro.
Qed.

Lemma shape_Ar_cons (l : list (ndarray num)) sh :
  shape (Ar l) = Some sh -> exists n sh', sh = n :: sh'.
Proof.
  destruct l as [| b l']; cbn [shape].
  - intros E; injection E as <-; eauto.
  - destruct (shape b); [| discriminate].
    destruct (forallb _ l'); [| discriminate].
    intros E; injection E as <-; eauto.
Qed.

Lemma shape_nil_inv (a : ndarray num) :
  shape a = Some [] -> exists x, a = Sc x.
Proof.
  destruct a as [x | l]; [eauto |].
  intros E. destruct (shape_Ar_cons _ E) as (n & sh' & E'). discriminate.
Qed.

Lemma shape_vec2_inv (a : ndarray num) :
  shape a = Some [2] -> exists x y, a = Ar [Sc x; Sc y].
Proof.
  destruct a as [x | l]; [discriminate |]. intros E.
  destruct (shape_Ar_inv _ E) as [Hl Hs].
  destruct (length2_inv _ Hl) as (u & v & ->).
  destruct (shape_nil_inv _ (Hs u (or_introl eq_refl))) as [x ->].
  destruct (shape_nil_inv _ (Hs v (or_intror (or_introl eq_refl)))) as [y ->].
  eauto.
Qed.

Lemma shape_matrix22_inv (m : ndarray num) :
  shape m = Some [2; 2] -> exists a b c d, m = matrix22 a b c d.
Proof.
  destruct m as [x | l]; [discriminate |]. intros E.
  destruct (shape_Ar_inv _ E) as [Hl Hs].
  destruct (length2_inv _ Hl) as (u & v & ->).
  destruct (shape_vec2_inv _ (Hs u (or_introl eq_refl))) as (a & b & ->).
  destruct (shape_vec2_inv _ (Hs v (or_intror (or_introl eq_refl)))) as (c & d & ->).
  now exists a, b, c, d.
Qed.

Lemma shape_pair_inv (a : ndarray num) :
  shape a = Some [2; 2; 2] -> exists j : jones_pair num, a = nd_of_pair j.
Proof.
  destruct a as [x | l]; [discriminate |]. intros E.
  destruct (shape_Ar_inv _ E) as [Hl Hs].
  destruct (length2_inv _ Hl) as (u & v & ->).
  destruct (shape_matrix22_inv _ (Hs u (or_introl eq_refl))) as (a & b & c & d & ->).
  destruct (shape_matrix22_inv _ (Hs v (or_intror (or_introl eq_refl))))
    as (a' & b' & c' & d' & ->).
  now exists (mk_jones a b c d a' b' c' d').
Qed.

Lemma shape_nd_of_pair (j : jones_pair num) : shape (nd_of_pair j) = Some [2; 2; 2].
Proof. reflexivity. Qed.

Lemma shape_pairs (js : list (jones_pair num)) :
  js <> [] ->
  shape (Ar (map nd_of_pair js)) = Some [length js; 2; 2; 2].
Proof.
  destruct js as [| j js]; [congruence |]. intros _.
  cbn [map]. rewrite (shape_Ar_intro (sh := [2; 2; 2])).
  - cbn [length]. now rewrite length_map.
  - intros a [<- | Ha]; [reflexivity |].
    apply in_map_iff in Ha. destruct Ha as (j' & <- & _). reflexivity.
Qed.

Lemma shape_nd_map (f : num -> num) : forall (a : ndarray num) sh,
  shape a = Some sh -> shape (nd_map f a) = Some sh.
Proof.
  induction a as [x | l IH] using ndarray_ind'; intros sh E; [exact E |].
  destruct (shape_Ar_cons _ E) as (n & sh' & ->).
  destruct (shape_Ar_inv _ E) as [Hn Hall].
  destruct l as [| b l]; [exact E |].
  cbn [nd_map]. rewrite (@shape_all _ sh').
  - rewrite length_map. now rewrite Hn.
  - discriminate.
  - intros a Ha. apply in_map_iff in Ha. destruct Ha as (a' & <- & Ha').
    rewrite Forall_forall in IH. apply (IH _ Ha'). now apply Hall.
Qed.

Lemma shape_scalar_rows (l : list (ndarray num)) n :
  shape (Ar l) = Some [n] -> forallb is_scalar l = true.
Proof.
  intros E. destruct (shape_Ar_inv _ E) as [_ Hall].
  apply forallb_forall. intros a Ha.
  destruct (shape_nil_inv _ (Hall a Ha)) as [x ->]. reflexivity.
Qed.


End Arrays.

(** ** The array arithmetic of the script *)

Section ArrayArithmetic.
Context {num : Type} `{Arith num} `{Routines num}.

Import cholesteric.

Lemma shape_scalars A (f : A -> num) (l : list A) :
  l <> [] -> shape (Ar (map (fun x => Sc (f x)) l)) = Some [length l].
Proof.
  intros Hl. rewrite (@shape_all _ _ []).
  - now rewrite length_map.
  - destruct l; [congruence | discriminate].
  - intros a Ha. apply in_map_iff in Ha. now destruct Ha as (x & <- & _).
Qed.

Lemma has_shape_inv sh (v : value num) :
  has_shape sh v = true ->
  exists a, to_nd v = Some a /\ shape a = Some sh /\ asarray v = Some a.
Proof.
  unfold has_shape, asarray. destruct (to_nd v) as [a |]; [| discriminate].
  destruct (shape a) as [sh' |] eqn:E; [| discriminate]. rewrite E.
  destruct (list_eq_dec Nat.eq_dec sh' sh) as [-> |]; [| discriminate].
  intros _. now exists a.
Qed.

Lemma returns_pair_inv (v : value num) :
  returns_pair v = true -> exists j, to_nd v = Some (nd_of_pair j).
Proof.
  intros Hv. destruct (has_shape_inv _ _ Hv) as (a & Ea & Sa & _).
  destruct (shape_pair_inv _ Sa) as [j ->]. eauto.
Qed.

Lemma returns_matrix_inv (v : value num) :
  returns_matrix v = true ->
  exists a n, to_nd v = Some a /\ shape a = Some [n; n].
Proof.
  unfold returns_matrix. intros E. apply orb_prop in E. destruct E as [E | E];
    destruct (has_shape_inv _ _ E) as (a & Ea & Sa & _); eauto.
Qed.

Lemma np_array_Ar (vs : list (value num)) a :
  np_array vs = Some a -> exists l sh, a = Ar l /\ shape (Ar l) = Some sh.
Proof.
  unfold np_array, asarray. cbn [to_nd].
  destruct (all_some (map to_nd vs)) as [l |]; [| discriminate].
  cbn [option_map]. destruct (shape (Ar l)) as [sh |] eqn:E; [| discriminate].
  intros Ea; injection Ea as <-. eauto.
Qed.

Lemma np_array_nth (vs : list (value num)) a :
  np_array vs = Some a ->
  forall k v, nth_error vs k = Some v ->
    exists b, to_nd v = Some b /\ nd_index a k = Some b.
Proof.
  unfold np_array, asarray. cbn [to_nd].
  destruct (all_some (map to_nd vs)) as [l |] eqn:E; [| discriminate].
  cbn [option_map]. destruct (shape (Ar l)); [| discriminate].
  intros Ea; injection Ea as <-. intros k v Hv.
  pose proof (all_some_nth _ E k) as Hk.
  rewrite nth_error_map, Hv in Hk. cbn [option_map] in Hk.
  cbn [nd_index]. destruct (nth_error l k) as [b |]; [| discriminate].
  cbn [option_map] in Hk. injection Hk as Hk. eauto.
Qed.

(** The conversion of line 53 when every call returned a pair. *)
Lemma np_array_pairs (vs : list (value num)) :
  forallb returns_pair vs = true ->
  exists js,
    length js = length vs
    /\ np_array vs = Some (Ar (map nd_of_pair js))
    /\ forall k, nth_error (map to_nd vs) k
                 = option_map (fun j => Some (nd_of_pair j)) (nth_error js k).
Proof.
  intros Hvs.
  assert (exists js, map to_nd vs = map (fun j => Some (nd_of_pair j)) js)
    as [js Ejs].
  { induction vs as [| v vs IH]; [now exists [] |].
    cbn [forallb] in Hvs. apply andb_prop in Hvs. destruct Hvs as [Hv Hvs].
    destruct (returns_pair_inv _ Hv) as [j Ej].
    destruct (IH Hvs) as [js Ejs]. exists (j :: js). cbn [map]. congruence. }
  exists js. split; [| split].
  - rewrite <- (length_map to_nd vs), Ejs. symmetry; apply length_map.
  - unfold np_array, asarray. cbn [to_nd]. rewrite Ejs.
    rewrite (all_some_map _ nd_of_pair) by reflexivity.
    cbn [option_map].
    destruct js as [| j js']; [reflexivity |].
    now rewrite shape_pairs.
  - intros k. rewrite Ejs. apply nth_error_map.
Qed.

Lemma np_array_matrices (vs : list (value num)) a :
  length vs = 100 ->
  forallb returns_matrix vs = true ->
  np_array vs = Some a ->
  exists n, shape a = Some [100; n; n].
Proof.
  intros Hlen Hvs Ha.
  destruct (np_array_Ar _ Ha) as (l & sh & -> & Hsh).
  destruct (shape_Ar_cons _ Hsh) as (q & sh' & ->).
  destruct (shape_Ar_inv _ Hsh) as [Hq Hall].
  destruct vs as [| v vs]; [discriminate Hlen |].
  cbn [forallb] in Hvs. apply andb_prop in Hvs. destruct Hvs as [Hv _].
  destruct (returns_matrix_inv _ Hv) as (b & n & Eb & Sb).
  destruct (np_array_nth _ Ha 0 eq_refl) as (b' & Eb' & Hb').
  rewrite Eb in Eb'. injection Eb' as <-.
  cbn [nd_index] in Hb'. pose proof (Hall _ (nth_error_In _ _ Hb')) as Sb'.
  rewrite Sb in Sb'. injection Sb' as <-.
  exists n. rewrite Hsh. do 2 f_equal.
  rewrite <- Hq. unfold np_array, asarray in Ha. cbn [to_nd] in Ha.
  destruct (all_some (map to_nd (v :: vs))) as [l' |] eqn:El; [| discriminate].
  cbn [option_map] in Ha. destruct (shape (Ar l')); [| discriminate].
  injection Ha as <-. apply all_some_length in El.
  now rewrite El, length_map.
Qed.

Lemma all_pairs (l : list (ndarray num)) :
  (forall a, In a l -> shape a = Some [2; 2; 2]) ->
  exists js, l = map nd_of_pair js.
Proof.
  induction l as [| a l IH]; intros Hl; [now exists [] |].
  destruct (shape_pair_inv _ (Hl a (or_introl eq_refl))) as [j ->].
  destruct IH as [js ->]; [intros b Hb; apply Hl; now right |].
  now exists (j :: js).
Qed.

Lemma nd_of_pair_inj (j j' : jones_pair num) :
  nd_of_pair j = nd_of_pair j' -> j = j'.
Proof.
  destruct j, j'. unfold nd_of_pair, reflection, transmission, matrix22.
  cbn. intros E. injection E as -> -> -> -> -> -> -> ->. reflexivity.
Qed.

(** An array of line 53 one of whose entries is a pair of 2x2 matrices is
    a stack of such pairs. *)
Lemma stack_of_pairs (vs : list (value num)) a k j :
  np_array vs = Some a ->
  nd_index a k = Some (nd_of_pair j) ->
  exists js, a = Ar (map nd_of_pair js) /\ nth_error js k = Some j.
Proof.
  intros Ha Hk. destruct (np_array_Ar _ Ha) as (l & sh & -> & Hsh).
  cbn [nd_index] in Hk.
  destruct (shape_Ar_cons _ Hsh) as (n & sh' & ->).
  destruct (shape_Ar_inv _ Hsh) as [_ Hall].
  assert (sh' = [2; 2; 2]) as ->.
  { pose proof (Hall _ (nth_error_In _ _ Hk)) as E.
    rewrite shape_nd_of_pair in E. now injection E. }
  destruct (all_pairs _ Hall) as [js ->]. exists js. split; [reflexivity |].
  rewrite nth_error_map in Hk. destruct (nth_error js k) as [j' |]; [| discriminate].
  cbn [option_map] in Hk. f_equal. apply nd_of_pair_inj. congruence.
Qed.

(** Lines 54 and 62 on a stack of pairs. *)
Lemma sum_last_rows (l : list (ndarray num)) :
  forallb is_scalar l = false -> sum_last (Ar l) = Ar (map sum_last l).
Proof. intros E. cbn [sum_last]. now rewrite E. Qed.

Lemma total_power_pairs (js : list (jones_pair num)) :
  js <> [] ->
  total_power_of (abs_sq (Ar (map nd_of_pair js))) = Ar (map powers js).
Proof.
  destruct js as [| j js]; [congruence |]. intros _.
  unfold total_power_of, abs_sq. cbn [nd_map]. rewrite map_map.
  rewrite sum_last_rows by reflexivity. rewrite map_map.
  rewrite sum_last_rows by reflexivity. rewrite map_map.
  cbn [nd_map]. rewrite map_map. reflexivity.
Qed.

Lemma transpose_powers (js : list (jones_pair num)) :
  js <> [] ->
  transpose (Ar (map powers js)) =
  Ar [Ar (map (fun j => Sc (half_power (r00 j) (r01 j) (r10 j) (r11 j))) js);
      Ar (map (fun j => Sc (half_power (t00 j) (t01 j) (t10 j) (t11 j))) js)].
Proof.
  destruct js as [| j js]; [congruence |]. intros _.
  unfold transpose. cbn [map ndim powers transpose_n last_dim is_scalar length seq].
  assert (forall k, take_last k (Ar (powers j :: map powers js))
                    = Ar (map (take_last k) (powers j :: map powers js))) as E
    by reflexivity.
  unfold powers in E at 1 2. cbn [map] in *. rewrite !E.
  cbn [map take_last forallb is_scalar andb nth]. rewrite !map_map.
  reflexivity.
Qed.

Lemma unpack_powers (js : list (jones_pair num)) :
  js <> [] ->
  unpack2 (transpose (total_power_of (abs_sq (Ar (map nd_of_pair js))))) =
  Some (Ar (map (fun j => Sc (half_power (r00 j) (r01 j) (r10 j) (r11 j))) js),
        Ar (map (fun j => Sc (half_power (t00 j) (t01 j) (t10 j) (t11 j))) js)).
Proof.
  intros Hjs. now rewrite total_power_pairs, transpose_powers.
Qed.

(** [sum(axis=-1)] removes the last axis. *)
Lemma shape_sum_last : forall (a : ndarray num) sh n,
  shape a = Some (sh ++ [n]) -> shape (sum_last a) = Some sh.
Proof.
  induction a as [x | l IH] using ndarray_ind'; intros sh n E.
  - destruct sh; discriminate E.
  - destruct sh as [| m sh].
    + cbn [app] in E. cbn [sum_last]. now rewrite (shape_scalar_rows _ E).
    + cbn [app] in E. destruct (shape_Ar_inv _ E) as [Hm Hall].
      destruct l as [| b l].
      * cbn in E. destruct sh; discriminate E.
      * assert (forallb is_scalar (b :: l) = false) as F.
        { pose proof (Hall b (or_introl eq_refl)) as Sb.
          destruct b as [x | lb]; [destruct sh; discriminate Sb | reflexivity]. }
        cbn [sum_last]. rewrite F. rewrite (@shape_all _ _ sh).
        -- now rewrite length_map, Hm.
        -- discriminate.
        -- intros a Ha. apply in_map_iff in Ha. destruct Ha as (a' & <- & Ha').
           rewrite Forall_forall in IH. apply (IH _ Ha' sh n). now apply Hall.
Qed.

Lemma unpack_vector (a : ndarray num) n :
  shape a = Some [n] -> n <> 2 -> unpack2 (transpose a) = None.
Proof.
  intros E Hn. destruct a as [x | l]; [discriminate E |].
  destruct (shape_Ar_inv _ E) as [Hl Hall].
  assert (transpose (Ar l) = Ar l) as ->.
  { unfold transpose. destruct l as [| b l]; [reflexivity |].
    destruct (shape_nil_inv _ (Hall b (or_introl eq_refl))) as [x ->].
    reflexivity. }
  destruct l as [| x [| y [| z l]]]; cbn in *; try reflexivity; lia.
Qed.

(** Line 63 on a stack of matrices: the sums leave one number per call,
    which cannot be unpacked into two names. *)
Lemma unpack_matrices (a : ndarray num) n m :
  shape a = Some [100; n; m] ->
  unpack2 (transpose (total_power_of (abs_sq a))) = None.
Proof.
  intros E. apply (@unpack_vector _ 100); [| discriminate].
  unfold total_power_of, abs_sq.
  apply shape_nd_map.
  apply (shape_sum_last _ [100] n).
  apply (shape_sum_last _ [100; n] m).
  now apply shape_nd_map.
Qed.

(** Line 67 on a stack of pairs. *)
Lemma transmission_matrix_pairs (js : list (jones_pair num)) k j :
  nth_error js k = Some j ->
  transmission_matrix (Ar (map nd_of_pair js)) k = Some (transmission j).
Proof.
  intros E. unfold transmission_matrix. cbn [nd_index].
  rewrite nth_error_map, E. reflexivity.
Qed.

(** Line 66. *)
Lemma argmin_from_bound (l : list num) : forall best ibest k,
  ibest < k -> argmin_from best ibest k l < k + length l.
Proof.
  induction l as [| x l IH]; intros best ibest k Hk; cbn [argmin_from length].
  - lia.
  - destruct (nltb x best).
    + specialize (IH x k (S k)). lia.
    + specialize (IH best ibest (S k)). lia.
Qed.


Lemma stop_band_index_defined :
  exists k, stop_band_index = Some k /\ k < 100.
Proof.
  assert (length (flatten (nd_map nabs
                             (nd_map (fun x => nsub x lbda_B) lbda_list)))
          = 100) as Hlen by reflexivity.
  unfold stop_band_index, argmin.
  destruct (flatten _) as [| x r]; [discriminate Hlen |].
  eexists; split; [reflexivity |].
  pose proof (argmin_from_bound r x (ibest := 0) (k := 1)).
  cbn [length] in Hlen. lia.
Qed.

Lemma k0_list_length : length (entries k0_list) = 100.
Proof. reflexivity. Qed.

End ArrayArithmetic.

(** ** Programs, traces and programs in step *)

Section Programs.
Context {num : Type}.

Lemma trace_bind A B (m : prog num A) (f : A -> prog num B) o n :
  trace o n (bind m f) =
  trace o n m ++
  match result o n m with
  | Done a => trace o (n + length (trace o n m)) (f a)
  | Raised _ => []
  end.
Proof.
  revert n; induction m as [a | l | c k IH]; intros n; cbn.
  - now rewrite Nat.add_0_r.
  - reflexivity.
  - rewrite IH. now rewrite Nat.add_succ_r.
Qed.

Lemma result_bind A B (m : prog num A) (f : A -> prog num B) o n :
  result o n (bind m f) =
  match result o n m with
  | Done a => result o (n + length (trace o n m)) (f a)
  | Raised l => Raised l
  end.
Proof.
  revert n; induction m as [a | l | c k IH]; intros n; cbn.
  - now rewrite Nat.add_0_r.
  - reflexivity.
  - rewrite IH. now rewrite Nat.add_succ_r.
Qed.

Lemma result_call A o n (c : call num) (k : value num -> prog num A) :
  result o n (Call c k) = result o (S n) (k (o n c)).
Proof. reflexivity. Qed.

Lemma trace_call A o n (c : call num) (k : value num -> prog num A) :
  trace o n (Call c k) = (c, o n c) :: trace o (S n) (k (o n c)).
Proof. reflexivity. Qed.

Lemma answers_length (o : environment num) n cs : length (answers o n cs) = length cs.
Proof. revert n; induction cs; intros; cbn; auto. Qed.

Lemma trace_mapM_call A (c : A -> call num) (l : list A) o n :
  trace o n (mapM (fun x => Call (c x) (fun v => Ret v)) l) =
  combine (map c l) (answers o n (map c l)).
Proof.
  revert n; induction l as [| x l IH]; intros n; cbn; [reflexivity |].
  f_equal. rewrite trace_bind, IH.
  destruct (result o (S n) _); cbn; now rewrite app_nil_r.
Qed.

Lemma result_mapM_call A (c : A -> call num) (l : list A) o n :
  result o n (mapM (fun x => Call (c x) (fun v => Ret v)) l) =
  Done (answers o n (map c l)).
Proof.
  revert n; induction l as [| x l IH]; intros n; cbn; [reflexivity |].
  rewrite result_bind, IH. reflexivity.
Qed.

Lemma length_trace_mapM_call A (c : A -> call num) (l : list A) o n :
  length (trace o n (mapM (fun x => Call (c x) (fun v => Ret v)) l)) = length l.
Proof.
  rewrite trace_mapM_call, length_combine, answers_length, length_map.
  apply Nat.min_id.
Qed.

Lemma trace_mapM_bind A B (c : A -> call num) (l : list A)
    (f : list (value num) -> prog num B) o n :
  trace o n (bind (mapM (fun x => Call (c x) (fun v => Ret v)) l) f) =
  combine (map c l) (answers o n (map c l))
  ++ trace o (n + length l) (f (answers o n (map c l))).
Proof.
  now rewrite trace_bind, result_mapM_call, length_trace_mapM_call, trace_mapM_call.
Qed.

Lemma result_mapM_bind A B (c : A -> call num) (l : list A)
    (f : list (value num) -> prog num B) o n :
  result o n (bind (mapM (fun x => Call (c x) (fun v => Ret v)) l) f) =
  result o (n + length l) (f (answers o n (map c l))).
Proof.
  now rewrite result_bind, result_mapM_call, length_trace_mapM_call.
Qed.

Lemma calls_to_app f (a b : list (event num)) :
  calls_to f (a ++ b) = calls_to f a ++ calls_to f b.
Proof. apply filter_app. Qed.

Lemma calls_to_combine A f f' (c : A -> call num) (l : list A) :
  (forall x, fn (c x) = f') ->
  forall vs : list (value num),
    calls_to f (combine (map c l) vs)
    = if callee_eqb f' f then combine (map c l) vs else [].
Proof.
  intros Hc. induction l as [| x l IH]; intros vs.
  - cbn. now destruct (callee_eqb f' f).
  - destruct vs as [| v vs]; [cbn; now destruct (callee_eqb f' f) |].
    cbn [map combine calls_to filter fst]. fold (calls_to f (combine (map c l) vs)).
    rewrite IH, Hc. now destruct (callee_eqb f' f).
Qed.

Lemma library_not_shown (c : call num) :
  is_library_fn (fn c) = true -> shown c = None.
Proof. unfold shown; destruct (fn c); cbn; congruence. Qed.

Lemma in_step_bind A B (post : A -> A -> Prop) (post' : B -> B -> Prop)
    (p1 p2 : prog num A) (k1 k2 : A -> prog num B) :
  in_step post p1 p2 ->
  (forall a1 a2, post a1 a2 -> in_step post' (k1 a1) (k2 a2)) ->
  in_step post' (bind p1 k1) (bind p2 k2).
Proof.
  intros Hp Hk; induction Hp; cbn [bind].
  - now apply Hk.
  - constructor.
  - constructor; auto.
  - constructor; auto.
Qed.

Lemma in_step_mapM A (c : A -> call num) (l : list A) :
  (forall x, is_library_fn (fn (c x)) = true) ->
  in_step eq (mapM (fun x => Call (c x) (fun v => Ret v)) l)
             (mapM (fun x => Call (c x) (fun v => Ret v)) l).
Proof.
  intros Hc; induction l as [| x l IH]; cbn [mapM bind].
  - now constructor.
  - apply in_step_library; [apply Hc |]. intros v.
    eapply in_step_bind; [exact IH |]. intros ys ? <-. now constructor.
Qed.

Lemma in_step_sound A (post : A -> A -> Prop) (p1 p2 : prog num A) :
  in_step post p1 p2 ->
  forall o1 o2 n1 n2,
    library_returns (trace o1 n1 p1) = library_returns (trace o2 n2 p2) ->
    display (trace o1 n1 p1) = display (trace o2 n2 p2)
    /\ ends_alike post (result o1 n1 p1) (result o2 n2 p2).
Proof.
  induction 1 as [a1 a2 Hpost | l | c k1 k2 Hc Hk IH
                 | c1 c2 k1 k2 Hc1 Hc2 Hshown Hk IH];
    intros o1 o2 n1 n2 Hret.
  - now split.
  - now split.
  - cbn [trace result display fst] in *.
    unfold library_returns in Hret. cbn [filter fst fn] in Hret.
    rewrite Hc in Hret. cbn [map snd] in Hret.
    injection Hret as Hv Hret. rewrite (library_not_shown c Hc).
    rewrite <- Hv in *. apply IH. exact Hret.
  - cbn [trace result display fst] in *.
    unfold library_returns in Hret. cbn [filter fst fn] in Hret.
    rewrite Hc1, Hc2 in Hret.
    destruct (IH _ _ o1 o2 (S n1) (S n2) Hret) as [Hd He].
    split; [| exact He].
    rewrite Hshown. destruct (shown c2); congruence.
Qed.

End Programs.

(** ** Runs of the script *)

(** One step of a run, keeping the branch where a line raises. *)
Ltac step_any Hg Htr :=
  lazymatch type of Hg with
  | result ?o ?n (Call ?c ?k) = _ =>
      let v := fresh "v" in
      rewrite (result_call o n c k) in Hg;
      rewrite (trace_call o n c k) in Htr;
      set (v := o n c) in *; cbv beta in Hg, Htr
  | result ?o ?n (bind (lift ?l ?e) ?k) = _ =>
      destruct e eqn:?; cbn [lift bind result trace] in Hg, Htr
  end.

(** The run of the script up to the end of the loop of line 53. *)
Ltac run_script o r tr Hg Htr :=
  remember (result o 0 cholesteric.script) as r eqn:Hg;
  remember (trace o 0 cholesteric.script) as tr eqn:Htr;
  symmetry in Hg;
  unfold cholesteric.script in Hg, Htr;
  cbn [bind do_call] in Hg, Htr;
  do 9 step_any Hg Htr;
  unfold do_call in Hg, Htr;
  rewrite result_mapM_bind in Hg; rewrite trace_mapM_bind in Htr;
  rewrite k0_list_length in Hg, Htr; cbn [Nat.add] in Hg, Htr.

Section Runs.
Context {num : Type} `{Arith num} `{Routines num}.

Import cholesteric.

(** A completed run is the list [script_events], read off its final
    namespace. *)
Lemma script_done o g :
  result o 0 script = Done g ->
  exists LC0 vs normalized ratio angles Jc_array ax_xaxis,
    trace o 0 script = script_events o g LC0 vs normalized ratio angles ax_xaxis
    /\ length vs = 100
    /\ back g = front g
    /\ np_array vs = Some (J g)
    /\ total_power g = total_power_of (abs_sq (J g))
    /\ unpack2 (transpose (total_power g)) = Some (R_np g, T_np g)
    /\ stop_band_index = Some (i g)
    /\ transmission_matrix (J g) (i g) = Some (T g)
    /\ linalg_eig (T g) = Some (eigenvalues g, eigenvectors g)
    /\ p_normalized (eigenvectors g) = Some normalized
    /\ s_over_p (eigenvectors g) = Some ratio
    /\ ellipticity (eigenvectors g) = Some angles
    /\ asarray (Jc g) = Some Jc_array
    /\ power g = abs_sq Jc_array.
Proof.
  intros Hdone.
  run_script o r tr Hg Htr.
  match type of Hg with
  | context [answers o 9 ?cs] => set (vs := answers o 9 cs) in *
  end.
  repeat step_any Hg Htr; subst r; try discriminate Hdone.
  injection Hdone as <-. subst tr.
  exists v1, vs. do 5 eexists.
  cbn [glass front back LC R TN IL L s J T_pp R_pp T_sp R_sp total_power R_np
       T_np i T eigenvalues eigenvectors Jc power R_RR T_RR T_LL R_LL fig ax
       rectangle fmt].
  split; [reflexivity |].
  split; [unfold vs; now rewrite answers_length, length_map, k0_list_length |].
  repeat split; try eassumption; try reflexivity.
  - now destruct p0.
  - now destruct p1.
Qed.

(** Every run follows the schedule, as far as it gets. *)
Lemma schedule_followed o :
  names (trace o 0 script) = firstn (reached (result o 0 script)) schedule.
Proof.
  run_script o r tr Hg Htr.
  repeat step_any Hg Htr.
  all: subst r tr. 
  all: vm_compute; reflexivity.
Qed.

(** Every run makes the nine constructions and the hundred solver calls. *)
Lemma schedule_start (o : environment num) :
  firstn 109 (names (trace o 0 script)) = construction ++ solver_loop.
Proof.
  run_script o r tr Hg Htr.
  repeat step_any Hg Htr.
  all: subst tr; vm_compute; reflexivity.
Qed.

(** No plotting function is called in an earlier phase. *)
Lemma plotting_after_the_rest f :
  In f plotting ->
  ~ In f (construction ++ solver_loop ++ linear_basis ++ diagnostics
          ++ circular_basis).
Proof.
  intros Hf Hin.
  assert (forallb (fun f => negb (existsb (callee_eqb f)
             (construction ++ solver_loop ++ linear_basis ++ diagnostics
              ++ circular_basis))) plotting = true) as E
    by (vm_compute; reflexivity).
  rewrite forallb_forall in E. specialize (E f Hf).
  apply negb_true_iff in E.
  assert (existsb (callee_eqb f)
            (construction ++ solver_loop ++ linear_basis ++ diagnostics
             ++ circular_basis) = true) as E'.
  { apply existsb_exists. exists f. split; [exact Hin | now apply callee_eqb_eq]. }
  congruence.
Qed.

(** Two runs of the script proceed in step. *)
Lemma script_in_step :
  in_step (fun g1 g2 : globals num => without_plot g1 = without_plot g2)
          script script.
Proof.
  unfold script. cbn [bind do_call].
  do 9 (apply in_step_library; [reflexivity | intro]).
  unfold do_call.
  eapply in_step_bind; [apply in_step_mapM; reflexivity |].
  intros Js ? <-.
  repeat first
    [ apply in_step_library; [reflexivity | intro]
    | apply in_step_other; [reflexivity | reflexivity | reflexivity | intros ? ?]
    | match goal with
      | |- in_step _ (bind (lift _ ?e) _) _ =>
          destruct e; cbn [lift bind]; [| apply in_step_raise]
      end
    | apply in_step_ret; reflexivity ].
Qed.

(** The solver calls of a run are those of the loop. *)
Lemma sweep_of_every_run (o : environment num) :
  exists c s,
    nth_error (trace o 0 script) 8 = Some (c, s)
    /\ fn c = Structure
    /\ calls_to getJones (trace o 0 script)
       = combine (sweep_calls s) (solver_answers o)
    /\ sweep_events o = calls_to getJones (trace o 0 script)
    /\ length (solver_answers o) = 100.
Proof.
  unfold solver_answers, sweep_events.
  run_script o r tr Hg Htr.
  repeat step_any Hg Htr.
  all: subst tr; eexists; exists v7.
  all: split; [reflexivity |]; split; [reflexivity |].
  all: vm_compute; repeat split.
Qed.

(** The array [J] is made of the values the solver returned. *)
Lemma solver_answers_done (o : environment num) g :
  result o 0 script = Done g ->
  np_array (solver_answers o) = Some (J g)
  /\ nth_error (map snd (trace o 0 script)) 8 = Some (s g).
Proof.
  intros Hdone.
  destruct (script_done _ Hdone)
    as (LC0 & vs & nrm & rat & ang & Jca & xax & Htr & Hlen & _ & HJ & _).
  unfold solver_answers, sweep_events. rewrite Htr.
  unfold script_events, solver_events.
  cbn [construction_events app skipn map nth_error].
  split; [| reflexivity].
  rewrite firstn_app.
  assert (length (combine (solver_calls (s g)) vs) = 100) as Hc.
  { rewrite length_combine, Hlen. unfold solver_calls.
    rewrite length_map, k0_list_length. reflexivity. }
  rewrite Hc, Nat.sub_diag, firstn_O, app_nil_r.
  rewrite firstn_all2 by (rewrite Hc; apply le_n).
  rewrite <- HJ. f_equal. apply map_snd_combine.
  unfold solver_calls. rewrite length_map, k0_list_length. congruence.
Qed.

Lemma calls_to_script_events f (o : environment num) g LC0 vs nrm rat ang xax :
  calls_to f (script_events o g LC0 vs nrm rat ang xax) =
  calls_to f (construction_events g LC0)
  ++ (if callee_eqb getJones f then solver_events g vs else [])
  ++ calls_to f (linear_events g)
  ++ calls_to f (combine (diagnostic_calls g nrm rat ang)
                         (answers o 113 (diagnostic_calls g nrm rat ang)))
  ++ calls_to f (circular_events g)
  ++ calls_to f (plotting_events o g xax).
Proof.
  unfold script_events. rewrite !calls_to_app. do 1 f_equal. f_equal.
  unfold solver_events, solver_calls. now apply calls_to_combine.
Qed.

(** A run whose solver returns pairs of 2x2 matrices gets past line 67. *)
Lemma run_on_pairs (o : environment num) :
  forallb returns_pair (solver_answers o) = true ->
  exists js k j,
    length js = 100
    /\ np_array (solver_answers o) = Some (Ar (map nd_of_pair js))
    /\ stop_band_index = Some k
    /\ nth_error js k = Some j
    /\ (forall l, result o 0 script = Raised l -> 68 <= l)
    /\ (forall g, result o 0 script = Done g ->
          J g = Ar (map nd_of_pair js) /\ i g = k /\ T g = transmission j
          /\ R_np g
             = Ar (map (fun j => Sc (half_power (r00 j) (r01 j) (r10 j) (r11 j)))
                       js)
          /\ T_np g
             = Ar (map (fun j => Sc (half_power (t00 j) (t01 j) (t10 j) (t11 j)))
                       js)).
Proof.
  intros Hpairs.
  destruct (sweep_of_every_run o) as (c & s & _ & _ & _ & _ & Hlen).
  destruct (np_array_pairs _ Hpairs) as (js & Hjs & HJ & _).
  rewrite Hlen in Hjs.
  destruct stop_band_index_defined as (k & Hk & Hk100).
  destruct (nth_error js k) as [j |] eqn:Ej;
    [| apply nth_error_None in Ej; lia].
  exists js, k, j. do 4 (split; [assumption |]).
  assert (js <> []) as Hne by (intros ->; discriminate).
  revert HJ. unfold solver_answers, sweep_events.
  run_script o r tr Hg Htr.
  match type of Hg with
  | context [answers o 9 ?cs] => remember (answers o 9 cs) as vs eqn:Evs
  end.
  assert (length vs = 100) as Hvs
    by (subst vs; now rewrite answers_length, length_map, k0_list_length).
  clear Evs.
  assert (map snd (firstn 100 (skipn 9 tr)) = vs) as ->.
  { subst tr. cbn [skipn].
    assert (length (entries (@k0_list num _ _)) = length vs) as Hl
      by (rewrite Hvs; apply k0_list_length).
    rewrite firstn_app_exact
      by (rewrite length_combine, length_map, <- Hl, Nat.min_id;
          apply k0_list_length).
    apply map_snd_combine. now rewrite length_map. }
  intros HJ.
  rewrite HJ in Hg, Htr. cbn [lift bind result trace] in Hg, Htr.
  rewrite (unpack_powers Hne) in Hg, Htr. cbn [lift bind result trace] in Hg, Htr.
  rewrite Hk in Hg, Htr. cbn [lift bind result trace] in Hg, Htr.
  rewrite (transmission_matrix_pairs _ _ Ej) in Hg, Htr.
  cbn [lift bind result trace] in Hg, Htr.
  repeat step_any Hg Htr; subst r.
  all: split; [intros l E; try discriminate E; injection E as <-; lia |].
  all: intros g E; try discriminate E; injection E as <-; cbn; auto 6.
Qed.

(** A run whose solver returns single matrices stops at line 53 or 63. *)
Lemma run_on_matrices (o : environment num) :
  forallb returns_matrix (solver_answers o) = true ->
  result o 0 script = Raised 53 \/ result o 0 script = Raised 63.
Proof.
  intros Hmat.
  destruct (sweep_of_every_run o) as (c & s & _ & _ & _ & _ & Hlen).
  revert Hmat Hlen. unfold solver_answers, sweep_events.
  run_script o r tr Hg Htr.
  match type of Hg with
  | context [answers o 9 ?cs] => remember (answers o 9 cs) as vs eqn:Evs
  end.
  assert (length vs = 100) as Hvs
    by (subst vs; now rewrite answers_length, length_map, k0_list_length).
  clear Evs.
  assert (map snd (firstn 100 (skipn 9 tr)) = vs) as ->.
  { subst tr. cbn [skipn].
    assert (length (entries (@k0_list num _ _)) = length vs) as Hl
      by (rewrite Hvs; apply k0_list_length).
    rewrite firstn_app_exact
      by (rewrite length_combine, length_map, <- Hl, Nat.min_id;
          apply k0_list_length).
    apply map_snd_combine. now rewrite length_map. }
  intros Hmat _.
  destruct (np_array vs) as [a |] eqn:Ea; cbn [lift bind result trace] in Hg.
  - destruct (np_array_matrices _ Hvs Hmat Ea) as [n Sa].
    rewrite (unpack_matrices _ Sa) in Hg. cbn [lift bind result] in Hg. now right.
  - now left.
Qed.

End Runs.

(** ** The claims *)

Import cholesteric.
Import ExactQ.
Import Sample.

(** The decimal literals of the script, read in binary64. *)
Example binary64_literals :
  @p float Binary64.arith = 0x1.5cf751db94e6bp-21%float
  /\ @n_med float Binary64.arith = 0x1.8cccccccccccdp+0%float
  /\ @lbda_min float Binary64.arith = 0x1.ad7f29abcaf48p-21%float
  /\ @lbda_max float Binary64.arith = 0x1.421f5f40d8376p-20%float
  /\ @lbda_B float Binary64.arith = 0x1.0e72df7093660p-20%float.
Proof. repeat split; vm_compute; reflexivity. Qed.

(** A completed run against a given environment. *)
Ltac completed_run :=
  eexists; split; [vm_compute; reflexivity |].

(** C1 (as amended).  What the script asks of every solver call is a pair
    of 2x2 matrices, not one matrix.  When each of the hundred calls
    returns an array-like of shape (2,2,2): the collected array [J] has
    shape (100,2,2,2); the power sums transpose into exactly two
    components [R_np], [T_np] of length 100; [J[i,1,:,:]] is a 2x2 matrix;
    no line up to 67 raises; and a completed run holds these values in its
    namespace.  When each call returns a single 2x2 or 4x4 matrix, as the
    contract of the specification has it, the script raises at line 53 or
    at the unpacking of line 63. *)
Theorem solver_returns_pairs {num : Type} `{Arith num} `{Routines num}
    (o : environment num) :
  (forallb returns_pair (solver_answers o) = true ->
   exists J0 Rn Tn k t,
     np_array (solver_answers o) = Some J0
     /\ shape J0 = Some [100; 2; 2; 2]
     /\ unpack2 (transpose (total_power_of (abs_sq J0))) = Some (Rn, Tn)
     /\ shape Rn = Some [100] /\ shape Tn = Some [100]
     /\ stop_band_index = Some k
     /\ transmission_matrix J0 k = Some t
     /\ nd_at J0 [k; 1] = Some t
     /\ shape t = Some [2; 2]
     /\ (forall l, result o 0 script = Raised l -> 68 <= l)
     /\ (forall g, result o 0 script = Done g ->
           J g = J0 /\ R_np g = Rn /\ T_np g = Tn /\ T g = t))
  /\ (forallb returns_matrix (solver_answers o) = true ->
      result o 0 script = Raised 53 \/ result o 0 script = Raised 63).
Proof.
  split; [| apply run_on_matrices].
  intros Hpairs.
  destruct (run_on_pairs _ Hpairs)
    as (js & k & j & Hlen & HJ & Hk & Ej & Hraise & Hdone).
  assert (js <> []) as Hne by (intros ->; discriminate).
  exists (Ar (map nd_of_pair js)).
  exists (Ar (map (fun j => Sc (half_power (r00 j) (r01 j) (r10 j) (r11 j))) js)).
  exists (Ar (map (fun j => Sc (half_power (t00 j) (t01 j) (t10 j) (t11 j))) js)).
  exists k, (transmission j).
  split; [exact HJ |].
  split; [now rewrite (shape_pairs Hne), Hlen |].
  split; [exact (unpack_powers Hne) |].
  split; [now rewrite (shape_scalars _ Hne), Hlen |].
  split; [now rewrite (shape_scalars _ Hne), Hlen |].
  split; [exact Hk |].
  split; [exact (transmission_matrix_pairs _ _ Ej) |].
  split; [cbn [nd_at nd_index]; now rewrite nth_error_map, Ej |].
  split; [reflexivity |].
  split; [exact Hraise |].
  intros g Hg. destruct (Hdone g Hg) as (E1 & _ & E3 & E4 & E5). auto.
Qed.

(** C1 as stated fails.  Against the sample library, whose solver returns
    pairs of 2x2 matrices, the script runs to its end although no call
    returned a 2x2 or a 4x4 matrix; against a solver that returns a single
    2x2 matrix, or a single 4x4 matrix, it raises at line 63. *)
Lemma matrix_contract_refuted :
  (exists g, result library 0 script = Done g)
  /\ existsb returns_matrix (solver_answers library) = false
  /\ forallb returns_matrix (solver_answers library_2x2) = true
  /\ result library_2x2 0 script = Raised 63
  /\ forallb returns_matrix (solver_answers library_4x4) = true
  /\ result library_4x4 0 script = Raised 63.
Proof.
  split; [eexists; vm_compute; reflexivity |].
  repeat split; vm_compute; reflexivity.
Qed.

(** The sample library returns pairs; the other one single matrices. *)
Lemma solver_returns_pairs_witness :
  (exists J0, np_array (solver_answers library) = Some J0
              /\ shape J0 = Some [100; 2; 2; 2])
  /\ (result library_2x2 0 script = Raised 53
      \/ result library_2x2 0 script = Raised 63).
Proof.
  split.
  - destruct (proj1 (solver_returns_pairs library))
      as (J0 & Rn & Tn & k & t & HJ & Hs & _); [vm_compute; reflexivity |].
    exists J0. split; assumption.
  - apply (proj2 (solver_returns_pairs library_2x2)). vm_compute; reflexivity.
Defined.

(** C2.  The sweep has 100 wavelengths.  In every run the calls to
    [getJones] are exactly one per wavelength, in the order of
    [lbda_list], on the structure returned by [Structure], with
    [Kx = 0.0] and [k0 = 2 pi / lambda]; a completed run has collected
    the returned values, in that order, into [J], whose k-th entry is the
    array made of the k-th returned value.  In exact arithmetic the
    wavelengths start at 0.8e-6, end at 1.2e-6, are evenly spaced and
    increase; in binary64 they start and end at the same literals and
    increase. *)
Theorem one_solver_call_per_wavelength :
  (forall (num : Type) (A : Arith num) (Rt : Routines num) (o : environment num),
     length (flatten lbda_list) = 100
     /\ exists c s,
          nth_error (trace o 0 script) 8 = Some (c, s)
          /\ fn c = Structure
          /\ calls_to getJones (trace o 0 script)
             = combine (sweep_calls s) (solver_answers o)
          /\ length (solver_answers o) = 100
          /\ forall g, result o 0 script = Done g ->
               cholesteric.s g = s
               /\ np_array (solver_answers o) = Some (J g)
               /\ forall k v, nth_error (solver_answers o) k = Some v ->
                    exists a, to_nd v = Some a /\ nd_index (J g) k = Some a)
  /\ (nth_error (flatten (@lbda_list Q ExactQ.arith)) 0 = Some (Qred 0.8e-6)
      /\ nth_error (flatten (@lbda_list Q ExactQ.arith)) 99 = Some (Qred 1.2e-6)
      /\ ExactQ.steps (flatten (@lbda_list Q ExactQ.arith))
         = repeat (Qred ((1.2e-6 - 0.8e-6) / 99)) 99
      /\ @increasing Q ExactQ.arith (flatten (@lbda_list Q ExactQ.arith)) = true)
  /\ (nth_error (flatten (@lbda_list float Binary64.arith)) 0
      = Some (@lbda_min float Binary64.arith)
      /\ nth_error (flatten (@lbda_list float Binary64.arith)) 99
         = Some (@lbda_max float Binary64.arith)
      /\ @increasing float Binary64.arith (flatten (@lbda_list float Binary64.arith))
         = true).
Proof.
  split; [| split; repeat split; vm_compute; reflexivity].
  intros num A Rt o. split; [reflexivity |].
  destruct (sweep_of_every_run o) as (c & s & Hc & Hfn & Hcalls & _ & Hlen).
  exists c, s. do 4 (split; [assumption |]).
  intros g Hg. destruct (solver_answers_done _ Hg) as [HJ Hs].
  split; [| split; [exact HJ |]].
  - rewrite nth_error_map, Hc in Hs. cbn in Hs. congruence.
  - apply np_array_nth. exact HJ.
Qed.

(** The sample library leads to a completed run. *)
Lemma one_solver_call_per_wavelength_witness :
  exists g, result library 0 script = Done g
            /\ np_array (solver_answers library) = Some (J g).
Proof.
  eexists. split; [vm_compute; reflexivity |].
  destruct (proj1 one_solver_call_per_wavelength Q _ _ library)
    as (_ & c & s & _ & _ & _ & _ & Hg).
  apply Hg. vm_compute; reflexivity.
Defined.

(** C3.  In a completed run every entry of the power array of line 54 is
    the squared modulus [abs(x)**2] of the entry of [J] at the same
    index, every entry of the power array of line 88 is that of the entry
    of the circular-basis array [Jc]; and the eight calls to
    [extractCoefficient] are made, in this order, on the first array for
    T_pp, R_pp, T_sp, R_sp and on the second for R_RR, T_RR, T_LL,
    R_LL. *)
Theorem power_from_squared_modulus {num : Type} `{Arith num} `{Routines num}
    (o : environment num) g :
  result o 0 script = Done g ->
  exists Jc_array,
    asarray (Jc g) = Some Jc_array
    /\ power g = abs_sq Jc_array
    /\ (forall idx x, nd_at (J g) idx = Some (Sc x) ->
          nd_at (abs_sq (J g)) idx = Some (Sc (npow (nabs x) 2)))
    /\ (forall idx x, nd_at Jc_array idx = Some (Sc x) ->
          nd_at (power g) idx = Some (Sc (npow (nabs x) 2)))
    /\ calls_to extractCoefficient (trace o 0 script) =
       [ (mk_call extractCoefficient [VArr (abs_sq (J g)); VStr "t_pp"] [], T_pp g);
         (mk_call extractCoefficient [VArr (abs_sq (J g)); VStr "r_pp"] [], R_pp g);
         (mk_call extractCoefficient [VArr (abs_sq (J g)); VStr "t_sp"] [], T_sp g);
         (mk_call extractCoefficient [VArr (abs_sq (J g)); VStr "r_sp"] [], R_sp g);
         (mk_call extractCoefficient [VArr (power g); VStr "r_RR"] [], R_RR g);
         (mk_call extractCoefficient [VArr (power g); VStr "t_RR"] [], T_RR g);
         (mk_call extractCoefficient [VArr (power g); VStr "t_LL"] [], T_LL g);
         (mk_call extractCoefficient [VArr (power g); VStr "r_LL"] [], R_LL g) ].
Proof.
  intros Hdone.
  destruct (script_done _ Hdone)
    as (LC0 & vs & nrm & rat & ang & Jca & xax & Htr & _ & _ & _ & _ & _ & _
        & _ & _ & _ & _ & _ & HJc & Hpower).
  exists Jca. split; [exact HJc |]. split; [exact Hpower |].
  split; [| split].
  - intros idx x E. unfold abs_sq. now rewrite nd_at_map, E.
  - intros idx x E. rewrite Hpower. unfold abs_sq. now rewrite nd_at_map, E.
  - rewrite Htr, calls_to_script_events. reflexivity.
Qed.

Lemma power_from_squared_modulus_witness :
  exists g, result library 0 script = Done g
            /\ exists Jc_array,
                 asarray (Jc g) = Some Jc_array /\ power g = abs_sq Jc_array.
Proof.
  completed_run.
  edestruct (@power_from_squared_modulus Q _ _ library)
    as (Jca & H1 & H2 & _); [vm_compute; reflexivity |].
  exists Jca. split; assumption.
Defined.

(** C4.  In a completed run [total_power] is the power array summed over
    its last two axes and divided by 2, [(R_np, T_np)] is its transpose,
    and at every index [k] where [J[k]] is a pair of 2x2 matrices,
    [R_np[k]] is half the sum of the four squared moduli of [J[k,0]] and
    [T_np[k]] half that of [J[k,1]]. *)
Theorem unpolarized_power {num : Type} `{Arith num} `{Routines num}
    (o : environment num) g :
  result o 0 script = Done g ->
  total_power g
  = nd_map (fun x => ndiv x (nint 2)) (sum_last (sum_last (abs_sq (J g))))
  /\ unpack2 (transpose (total_power g)) = Some (R_np g, T_np g)
  /\ forall k j,
       nd_index (J g) k = Some (nd_of_pair j) ->
       nd_index (R_np g) k
       = Some (Sc (half_power (r00 j) (r01 j) (r10 j) (r11 j)))
       /\ nd_index (T_np g) k
          = Some (Sc (half_power (t00 j) (t01 j) (t10 j) (t11 j))).
Proof.
  intros Hdone.
  destruct (script_done _ Hdone)
    as (LC0 & vs & nrm & rat & ang & Jca & xax & _ & _ & _ & HJ & Htot & Hun
        & _).
  split; [exact Htot |]. split; [exact Hun |].
  intros k j Hk.
  destruct (stack_of_pairs _ _ HJ Hk) as (js & EJ & Ej).
  assert (js <> []) as Hjs by (intros ->; now destruct k).
  rewrite Htot, EJ, (unpack_powers Hjs) in Hun. injection Hun as <- <-.
  cbn [nd_index]. rewrite !nth_error_map, Ej. now split.
Qed.

(** At index 0 the sample library reflects [[1/2, 0], [0, 0]] and
    transmits [[1/2, 0], [0, 1]]. *)
Lemma unpolarized_power_witness :
  exists g, result library 0 script = Done g
            /\ nd_index (R_np g) 0
               = Some (Sc (half_power (1 # 2)%Q (0 # 1)%Q (0 # 1)%Q (0 # 1)%Q))
            /\ nd_index (T_np g) 0
               = Some (Sc (half_power (1 # 2)%Q (0 # 1)%Q (0 # 1)%Q (1 # 1)%Q)).
Proof.
  completed_run.
  edestruct (@unpolarized_power Q _ _ library) as (_ & _ & Hk);
    [vm_compute; reflexivity |].
  apply (Hk 0 (mk_jones (1 # 2)%Q (0 # 1)%Q (0 # 1)%Q (0 # 1)%Q
                        (1 # 2)%Q (0 # 1)%Q (0 # 1)%Q (1 # 1)%Q)).
  vm_compute; reflexivity.
Defined.

(** C5.  A completed run calls [ax.plot] exactly twice: with
    [lbda_list] and the value returned by
    [extractCoefficient(power, 'r_RR')], labelled R_RR, then with
    [lbda_list] and the value returned for ['t_RR'], labelled T_RR;
    [lbda_list] is the whole sweep, of shape (100,). *)
Theorem chart_curves {num : Type} `{Arith num} `{Routines num}
    (o : environment num) g :
  result o 0 script = Done g ->
  map fst (calls_to plot (trace o 0 script)) =
    [ mk_call plot [ax g; VArr lbda_list; R_RR g] [("label"%string, VStr "R_RR")];
      mk_call plot [ax g; VArr lbda_list; T_RR g] [("label"%string, VStr "T_RR")] ]
  /\ In (mk_call extractCoefficient [VArr (power g); VStr "r_RR"] [], R_RR g)
        (trace o 0 script)
  /\ In (mk_call extractCoefficient [VArr (power g); VStr "t_RR"] [], T_RR g)
        (trace o 0 script)
  /\ shape lbda_list = Some [100].
Proof.
  intros Hdone.
  destruct (script_done _ Hdone)
    as (LC0 & vs & nrm & rat & ang & Jca & xax & Htr & _).
  split; [| split; [| split]].
  - rewrite Htr, calls_to_script_events. reflexivity.
  - apply (proj1 (filter_In _ _ _)
             : In _ (calls_to extractCoefficient (trace o 0 script)) -> _).
    rewrite Htr, calls_to_script_events. cbn. auto 10.
  - apply (proj1 (filter_In _ _ _)
             : In _ (calls_to extractCoefficient (trace o 0 script)) -> _).
    rewrite Htr, calls_to_script_events. cbn. auto 10.
  - reflexivity.
Qed.

Lemma chart_curves_witness :
  exists g, result library 0 script = Done g
            /\ map fst (calls_to plot (trace library 0 script)) =
               [ mk_call plot [ax g; VArr lbda_list; R_RR g] [("label"%string, VStr "R_RR")];
                 mk_call plot [ax g; VArr lbda_list; T_RR g] [("label"%string, VStr "T_RR")] ].
Proof.
  completed_run.
  apply (@chart_curves Q _ _ library). vm_compute; reflexivity.
Defined.

(** C6.  The names of the calls of a run are a prefix of the schedule
    (construction, solver loop, linear basis, diagnostics, circular
    basis, plotting), the whole of it when the run completes.  Every run
    makes the nine constructions and then the hundred solver calls; the
    solver is never called after the loop; no coefficient is extracted
    before the loop has ended; and every [print] comes before every
    plotting call. *)
Theorem phases_in_order {num : Type} `{Arith num} `{Routines num}
    (o : environment num) :
  names (trace o 0 script) = firstn (reached (result o 0 script)) schedule
  /\ firstn 109 (names (trace o 0 script)) = construction ++ solver_loop
  /\ ~ In getJones (skipn 109 (names (trace o 0 script)))
  /\ (forall k, nth_error (names (trace o 0 script)) k = Some extractCoefficient ->
                109 <= k)
  /\ (forall k j f,
        nth_error (names (trace o 0 script)) k = Some print ->
        nth_error (names (trace o 0 script)) j = Some f ->
        In f plotting -> k < j)
  /\ forall g : globals num, reached (Done g) = length schedule.
Proof.
  pose proof (schedule_followed o) as Hfollow.
  pose proof (schedule_start o) as Hstart.
  split; [exact Hfollow |]. split; [exact Hstart |].
  split; [| split; [| split]].
  - rewrite Hfollow, skipn_firstn. intros Hin. apply In_firstn in Hin.
    revert Hin. vm_compute. intuition discriminate.
  - intros k Hk. destruct (Nat.le_gt_cases 109 k) as [| Hlt]; [assumption |].
    exfalso. rewrite (nth_error_of_firstn _ Hlt), Hstart in Hk.
    apply nth_error_In in Hk. apply in_app_or in Hk. destruct Hk as [Hk | Hk].
    + revert Hk. vm_compute. intuition discriminate.
    + apply repeat_spec in Hk. discriminate.
  - intros k j f Hk Hj Hf. rewrite Hfollow in Hk, Hj.
    apply nth_error_firstn_Some in Hk, Hj. destruct Hk as [Hk _], Hj as [Hj _].
    assert (schedule = (construction ++ solver_loop ++ linear_basis
                        ++ diagnostics ++ circular_basis) ++ plotting) as E
      by (unfold schedule; now rewrite <- !app_assoc).
    rewrite E in Hk, Hj.
    assert (length (construction ++ solver_loop ++ linear_basis
                    ++ diagnostics ++ circular_basis) = 132) as Hlen
      by reflexivity.
    destruct (Nat.le_gt_cases 132 j) as [Hj132 | Hj132].
    + destruct (Nat.le_gt_cases 132 k) as [Hk132 | Hk132]; [| lia].
      exfalso. rewrite nth_error_app2 in Hk by lia.
      apply nth_error_In in Hk. revert Hk. vm_compute. intuition discriminate.
    + exfalso. rewrite nth_error_app1 in Hj by lia.
      apply nth_error_In in Hj. exact (plotting_after_the_rest Hf Hj).
  - reflexivity.
Qed.

(** The sample run goes through the schedule; the run on single matrices
    stops after the coefficients of the linear basis. *)
Lemma phases_in_order_witness :
  names (trace library 0 script) = schedule
  /\ names (trace library_2x2 0 script) = firstn 113 schedule.
Proof.
  split.
  - rewrite (proj1 (phases_in_order library)). vm_compute; reflexivity.
  - rewrite (proj1 (phases_in_order library_2x2)). vm_compute; reflexivity.
Defined.

(** C7.  Two runs in which the library calls return the same values
    print the same diagnostics and hand the same data series to [plot],
    whatever [print] and pyplot return; they end alike, raising at the
    same line or with the same namespace up to the objects of pyplot. *)
Theorem same_library_same_display {num : Type} `{Arith num} `{Routines num}
    (o1 o2 : environment num) :
  library_returns (trace o1 0 script) = library_returns (trace o2 0 script) ->
  display (trace o1 0 script) = display (trace o2 0 script)
  /\ ends_alike (fun g1 g2 => without_plot g1 = without_plot g2)
       (result o1 0 script) (result o2 0 script).
Proof. apply in_step_sound, script_in_step. Qed.

(** The sample library in front of two different backends. *)
Lemma same_library_same_display_witness :
  display (trace library 0 script)
  = display (trace library_other_backend 0 script).
Proof.
  refine (proj1 (@same_library_same_display Q _ _ library
                   library_other_backend _)).
  vm_compute; reflexivity.
Defined.

(** C8.  In a completed run [front] and [back] are one value: the one
    returned by the single call [IsotropicHalfSpace(glass)], where [glass]
    is the value returned by the single call
    [IsotropicNonDispersiveMaterial(1.55)]; the structure is built once,
    with that value at both ends, and every solver call is made on it. *)
Theorem half_spaces_identical {num : Type} `{Arith num} `{Routines num}
    (o : environment num) g :
  result o 0 script = Done g ->
  front g = back g
  /\ calls_to IsotropicNonDispersiveMaterial (trace o 0 script) =
       [ (mk_call IsotropicNonDispersiveMaterial [VNum (nlit 1.55%Q)] [], glass g) ]
  /\ calls_to IsotropicHalfSpace (trace o 0 script) =
       [ (mk_call IsotropicHalfSpace [glass g] [], front g) ]
  /\ calls_to Structure (trace o 0 script) =
       [ (mk_call Structure [front g; VList [L g]; front g] [], s g) ]
  /\ forall e, In e (calls_to getJones (trace o 0 script)) ->
               nth_error (args (fst e)) 0 = Some (s g).
Proof.
  intros Hdone.
  destruct (script_done _ Hdone)
    as (LC0 & vs & nrm & rat & ang & Jca & xax & Htr & _ & Hback & _).
  split; [now rewrite Hback |].
  rewrite Htr, !calls_to_script_events.
  split; [reflexivity |]. split; [reflexivity |].
  split; [cbn; now rewrite Hback |].
  cbn -[solver_events]. rewrite app_nil_r. unfold solver_events, solver_calls.
  intros [c v] He. apply in_combine_l in He.
  apply in_map_iff in He. destruct He as (k0 & <- & _). reflexivity.
Qed.

Lemma half_spaces_identical_witness :
  exists g, result library 0 script = Done g
            /\ front g = back g
            /\ calls_to Structure (trace library 0 script) =
               [ (mk_call Structure [front g; VList [L g]; front g] [], s g) ].
Proof.
  completed_run.
  edestruct (@half_spaces_identical Q _ _ library) as (H1 & _ & _ & H4 & _);
    [vm_compute; reflexivity |].
  split; assumption.
Defined.

(** C9.  The index of line 66 exists and is below 100, the length of
    [lbda_list] and of the first axis of [J]; when the solver returns
    pairs of 2x2 matrices, [J[i,1,:,:]] is defined, a 2x2 matrix, no line
    up to 67 raises, and a completed run holds that matrix as [T].  In
    exact arithmetic [n_med] is 1.55 and [lbda_B = 0.65e-6 * 1.55] lies
    strictly between the ends of the sweep, the index is 51 and no
    wavelength is closer to [lbda_B] than the 51st; in binary64 [n_med]
    is the float 1.55, [lbda_B] lies strictly between the ends and the
    index is 51 as well. *)
Theorem stop_band_index_in_bounds :
  (forall (num : Type) (A : Arith num) (Rt : Routines num) (o : environment num),
     exists k,
       stop_band_index = Some k
       /\ k < length (flatten lbda_list)
       /\ length (flatten lbda_list) = 100
       /\ (forallb returns_pair (solver_answers o) = true ->
           exists J0 t,
             np_array (solver_answers o) = Some J0
             /\ length (entries J0) = 100
             /\ transmission_matrix J0 k = Some t
             /\ shape t = Some [2; 2]
             /\ (forall l, result o 0 script = Raised l -> 68 <= l)
             /\ (forall g, result o 0 script = Done g ->
                   J g = J0 /\ i g = k /\ T g = t)))
  /\ (@n_med Q ExactQ.arith = Qred 1.55
      /\ @lbda_B Q ExactQ.arith = Qred (0.65e-6 * 1.55)
      /\ Qlt (@lbda_min Q ExactQ.arith) (@lbda_B Q ExactQ.arith)
      /\ Qlt (@lbda_B Q ExactQ.arith) (@lbda_max Q ExactQ.arith)
      /\ @stop_band_index Q ExactQ.arith = Some 51
      /\ ExactQ.closest (@lbda_B Q ExactQ.arith)
           (flatten (@lbda_list Q ExactQ.arith)) 51 = true)
  /\ (@n_med float Binary64.arith = @nlit float Binary64.arith 1.55
      /\ PrimFloat.ltb (@lbda_min float Binary64.arith) (@lbda_B float Binary64.arith)
      = true
      /\ PrimFloat.ltb (@lbda_B float Binary64.arith)
           (@lbda_max float Binary64.arith) = true
      /\ @stop_band_index float Binary64.arith = Some 51).
Proof.
  split; [| split; [| repeat split; vm_compute; reflexivity]].
  - intros num A Rt o.
    destruct (@stop_band_index_defined num A) as (k & Hk & Hk100).
    exists k. split; [exact Hk |]. split; [exact Hk100 |].
    split; [reflexivity |].
    intros Hpairs.
    destruct (run_on_pairs _ Hpairs)
      as (js & k' & j & Hlen & HJ & Hk' & Ej & Hraise & Hdone).
    assert (k' = k) as -> by congruence.
    exists (Ar (map nd_of_pair js)), (transmission j).
    split; [exact HJ |].
    split; [cbn [entries]; now rewrite length_map |].
    split; [exact (transmission_matrix_pairs _ _ Ej) |].
    split; [reflexivity |].
    split; [exact Hraise |].
    intros g Hg. destruct (Hdone g Hg) as (E1 & E2 & E3 & _). auto.
  - repeat split; vm_compute; reflexivity.
Qed.

Lemma stop_band_index_in_bounds_witness :
  exists J0 t,
    np_array (solver_answers library) = Some J0
    /\ transmission_matrix J0 51 = Some t
    /\ shape t = Some [2; 2].
Proof.
  destruct (proj1 stop_band_index_in_bounds Q _ _ library)
    as (k & Hk & _ & _ & Hpairs).
  assert (k = 51) as -> by (vm_compute in Hk; congruence).
  destruct Hpairs as (J0 & t & H1 & _ & H3 & H4 & _); [vm_compute; reflexivity |].
  exists J0, t. repeat split; assumption.
Defined.

(** C10.  In a completed run the eigenvalues are those [numpy.linalg.eig]
    returned for [T]; they are printed under the line "Eigenvalues of the
    Jones transmission matrix:", and under "Corresponding power
    transmission:" is printed [abs(eigenvalues)**2], whose k-th entry is
    the squared modulus of the k-th eigenvalue. *)
Theorem printed_power_transmission {num : Type} `{Arith num} `{Routines num}
    (o : environment num) g :
  result o 0 script = Done g ->
  linalg_eig (T g) = Some (eigenvalues g, eigenvectors g)
  /\ (exists normalized ratio angles,
        map fst (calls_to print (trace o 0 script))
        = tl (diagnostic_calls g normalized ratio angles))
  /\ nth_error (map fst (calls_to print (trace o 0 script))) 1
     = Some (mk_call print
               [VStr "Eigenvalues of the Jones transmission matrix:"] [])
  /\ nth_error (map fst (calls_to print (trace o 0 script))) 2
     = Some (mk_call print [VArr (eigenvalues g)] [])
  /\ nth_error (map fst (calls_to print (trace o 0 script))) 3
     = Some (mk_call print [VStr "Corresponding power transmission:"] [])
  /\ nth_error (map fst (calls_to print (trace o 0 script))) 4
     = Some (mk_call print [VArr (abs_sq (eigenvalues g))] [])
  /\ forall k x,
       nd_index (eigenvalues g) k = Some (Sc x) ->
       nd_index (abs_sq (eigenvalues g)) k = Some (Sc (npow (nabs x) 2)).
Proof.
  intros Hdone.
  destruct (script_done _ Hdone)
    as (LC0 & vs & nrm & rat & ang & Jca & xax & Htr & _ & _ & _ & _ & _ & _
        & _ & Heig & _).
  split; [exact Heig |].
  rewrite Htr, calls_to_script_events.
  split; [exists nrm, rat, ang; reflexivity |].
  do 4 (split; [reflexivity |]).
  intros k x E. unfold abs_sq. now rewrite nd_index_map, E.
Qed.

(** The first eigenvalue of the sample transmission matrix is 1/2. *)
Lemma printed_power_transmission_witness :
  exists g, result library 0 script = Done g
            /\ nth_error (map fst (calls_to print (trace library 0 script))) 4
               = Some (mk_call print [VArr (abs_sq (eigenvalues g))] [])
            /\ nd_index (abs_sq (eigenvalues g)) 0
               = Some (Sc (npow (nabs (1 # 2)%Q) 2)).
Proof.
  completed_run.
  edestruct (@printed_power_transmission Q _ _ library)
    as (_ & _ & _ & _ & _ & H4 & Hk); [vm_compute; reflexivity |].
  split; [exact H4 |]. apply Hk. vm_compute; reflexivity.
Defined.

(** ** How a run ends *)

(** Names the values the solver returned during a run being executed. *)
Ltac name_answers o vs Hvs tr Hg :=
  let Evs := fresh "Evs" in
  match type of Hg with
  | context [answers o 9 ?cs] => remember (answers o 9 cs) as vs eqn:Evs
  end;
  assert (length vs = 100) as Hvs
    by (subst vs; now rewrite answers_length, length_map, k0_list_length);
  clear Evs;
  assert (map snd (firstn 100 (skipn 9 tr)) = vs) as ->
    by (subst tr; cbn [skipn];
        rewrite firstn_app_exact
          by (rewrite length_combine, length_map, Hvs, k0_list_length;
              reflexivity);
        apply map_snd_combine; rewrite length_map, Hvs;
        apply k0_list_length).

Section Endings.
Context {num : Type} `{Arith num} `{Routines num}.

Import cholesteric.

Lemma first_failure_run (o : environment num) :
  raised_at (result o 0 script) = first_failure o.
Proof.
  unfold first_failure, solver_answers, sweep_events, circular_call.
  run_script o r tr Hg Htr.
  name_answers o vs Hvs tr Hg.
  repeat step_any Hg Htr.
  all: subst r; reflexivity.
Qed.

End Endings.

(** ** Vectors and matrices *)

Section Matrices.
Context {num : Type}.

(** A list of two entries or more ends with two of them. *)
Lemma last_two {A} (l : list A) :
  2 <= length l -> exists l' y z, l = l' ++ [y; z].
Proof.
  intros Hl.
  destruct (exists_last (l := l)) as (l1 & z & ->);
    [intros ->; cbn in Hl; lia |].
  rewrite length_app in Hl. cbn [length] in Hl.
  destruct (exists_last (l := l1)) as (l2 & y & ->);
    [intros ->; cbn in Hl; lia |].
  exists l2, y, z. now rewrite <- app_assoc.
Qed.

Lemma ndim_shape : forall (a : ndarray num) sh,
  shape a = Some sh -> ndim a = length sh.
Proof.
  induction a as [x | l IH] using ndarray_ind'; intros sh E.
  - injection E as <-. reflexivity.
  - destruct l as [| b l]; [injection E as <-; reflexivity |].
    destruct (shape_Ar_cons _ E) as (n & sh' & ->).
    destruct (shape_Ar_inv _ E) as [_ Hall].
    cbn [ndim length]. f_equal.
    apply (Forall_inv IH). apply Hall. now left.
Qed.

Lemma ndim_vector (xs : list num) : ndim (vector xs) = 1.
Proof. now destruct xs. Qed.

Lemma scalars_vector (xs : list num) : forallb is_scalar (map Sc xs) = true.
Proof. induction xs; cbn; auto. Qed.

Lemma all_scalars (l : list (ndarray num)) :
  (forall a, In a l -> shape a = Some []) -> exists xs, l = map Sc xs.
Proof.
  induction l as [| a l IH]; intros Hl; [now exists [] |].
  destruct (shape_nil_inv _ (Hl a (or_introl eq_refl))) as [x ->].
  destruct IH as [xs ->]; [intros b Hb; apply Hl; now right |].
  now exists (x :: xs).
Qed.

Lemma shape_vector_inv (a : ndarray num) m :
  shape a = Some [m] -> exists xs, a = vector xs /\ length xs = m.
Proof.
  destruct a as [x | l]; [discriminate |]. intros E.
  destruct (shape_Ar_inv _ E) as [Hl Hall].
  destruct (all_scalars _ Hall) as [xs ->].
  exists xs. split; [reflexivity |]. now rewrite length_map in Hl.
Qed.

Lemma all_vectors (l : list (ndarray num)) m :
  (forall a, In a l -> shape a = Some [m]) ->
  exists xss, l = map vector xss /\ forall xs, In xs xss -> length xs = m.
Proof.
  induction l as [| a l IH]; intros Hl.
  - exists []. split; [reflexivity | intros xs []].
  - destruct (shape_vector_inv _ (Hl a (or_introl eq_refl))) as (xs & -> & Hxs).
    destruct IH as (xss & -> & Hxss); [intros b Hb; apply Hl; now right |].
    exists (xs :: xss). split; [reflexivity |].
    intros ys [<- | Hys]; auto.
Qed.

Lemma shape_rows_inv (a : ndarray num) n m :
  shape a = Some [n; m] ->
  exists xss, a = rows xss /\ length xss = n
              /\ forall xs, In xs xss -> length xs = m.
Proof.
  destruct a as [x | l]; [discriminate |]. intros E.
  destruct (shape_Ar_inv _ E) as [Hl Hall].
  destruct (@all_vectors l m Hall) as (xss & -> & Hxss).
  exists xss. split; [reflexivity |]. split; [| exact Hxss].
  now rewrite length_map in Hl.
Qed.

Lemma shape_vector (xs : list num) :
  xs <> [] -> shape (vector xs) = Some [length xs].
Proof.
  intros Hxs. unfold vector. rewrite (@shape_all _ _ []).
  - now rewrite length_map.
  - destruct xs; [congruence | discriminate].
  - intros a Ha. apply in_map_iff in Ha. now destruct Ha as (x & <- & _).
Qed.

Lemma shape_vector_0 (xs : list num) : shape (vector xs) = Some [length xs].
Proof. destruct xs as [| x xs]; [reflexivity |]. now apply shape_vector. Qed.

Lemma shape_rows (xss : list (list num)) m :
  xss <> [] -> (forall xs, In xs xss -> length xs = m) ->
  shape (rows xss) = Some [length xss; m].
Proof.
  intros Hne Hm. unfold rows. rewrite (@shape_all _ _ [m]).
  - now rewrite length_map.
  - destruct xss; [congruence | discriminate].
  - intros a Ha. apply in_map_iff in Ha. destruct Ha as (xs & <- & Hxs).
    rewrite shape_vector_0. now rewrite (Hm _ Hxs).
Qed.

Lemma length_map2 (f : num -> num -> num) xs ys :
  length xs = length ys -> length (map2 f xs ys) = length ys.
Proof.
  intros E. unfold map2. rewrite length_map, length_combine, E.
  apply Nat.min_id.
Qed.

Lemma nth_error_map2 (f : num -> num -> num) xs ys k x y :
  nth_error xs k = Some x -> nth_error ys k = Some y ->
  nth_error (map2 f xs ys) k = Some (f x y).
Proof.
  unfold map2. revert ys k.
  induction xs as [| a xs IH]; intros [| b ys] [| k]; cbn; try discriminate.
  - now intros [= ->] [= ->].
  - apply IH.
Qed.

(** Entry by entry on two vectors of one length. *)
Lemma zipL_vector (f : num -> num -> num) (xs ys : list num) :
  length xs = length ys ->
  zipL f (vector xs) (vector ys) = Some (vector (map2 f xs ys)).
Proof.
  intros Hlen. unfold vector at 1. cbn [zipL].
  fold (vector xs). rewrite !ndim_vector. cbn [Nat.ltb Nat.leb].
  unfold vector at 1. rewrite !length_map, Hlen, Nat.eqb_refl.
  match goal with
  | |- option_map Ar (?zl _ _) = _ =>
      assert (forall xs ys, length xs = length ys ->
                zl (map Sc xs) (map Sc ys) = Some (map Sc (map2 f xs ys))) as E
  end.
  { clear. induction xs as [| x xs IH]; intros [| y ys] E; try discriminate E;
      [reflexivity |].
    cbn [map zipL]. rewrite IH by (cbn in E; lia). reflexivity. }
  now rewrite E.
Qed.

Lemma nd_at_rows (xss : list (list num)) r c :
  nd_at (rows xss) [r; c]
  = match nth_error xss r with
    | Some xs => option_map Sc (nth_error xs c)
    | None => None
    end.
Proof.
  unfold rows, vector. cbn [nd_at nd_index]. rewrite nth_error_map.
  destruct (nth_error xss r) as [xs |]; [| reflexivity].
  cbn [option_map nd_index]. rewrite nth_error_map.
  now destruct (nth_error xs c).
Qed.


(** The transpose of a matrix: its columns. *)
Lemma transpose_rows (xss : list (list num)) m :
  xss <> [] -> (forall xs, In xs xss -> length xs = m) ->
  transpose (rows xss)
  = Ar (map (fun j => Ar (map (fun xs => nth j (map Sc xs) (Ar [])) xss))
            (seq 0 m)).
Proof.
  destruct xss as [| ys xss]; [congruence |]. intros _ Hm.
  unfold transpose.
  assert (ndim (rows (ys :: xss)) = 2) as ->
    by (unfold rows; cbn [map ndim]; now rewrite ndim_vector).
  cbn [transpose_n].
  assert (last_dim (rows (ys :: xss)) = m) as ->.
  { rewrite <- (Hm ys (or_introl eq_refl)). unfold rows, vector.
    cbn [map last_dim is_scalar]. destruct ys as [| y ys]; [reflexivity |].
    cbn [map is_scalar length]. now rewrite length_map. }
  f_equal. apply map_ext. intros j.
  unfold rows. cbn [map take_last forallb is_scalar andb vector].
  rewrite scalars_vector. do 2 f_equal.
  rewrite map_map. apply map_ext. intros xs.
  unfold vector. cbn [take_last]. now rewrite scalars_vector.
Qed.

End Matrices.

(** ** The eigenvector diagnostics *)

Section Diagnostics.
Context {num : Type} `{Arith num} `{Routines num}.

Import cholesteric.

(** Line 80 on a matrix: every row is divided, entry by entry, by the
    first. *)
Lemma p_normalized_rows (ys : list num) (xss : list (list num)) :
  (forall xs, In xs xss -> length xs = length ys) ->
  p_normalized (rows (ys :: xss))
  = Some (rows (map (fun xs => map2 ndiv xs ys) (ys :: xss))).
Proof.
  intros Hm. unfold p_normalized, nd_index_slices, rows.
  cbn [map nd_index nth_error]. rewrite ndim_vector. cbn [Nat.leb].
  unfold broadcast2. cbn [ndim]. rewrite ndim_vector. cbn [Nat.leb].
  cbn [zipL ndim]. rewrite ndim_vector. cbn [Nat.ltb Nat.leb].
  change (vector ys :: map vector xss) with (map vector (ys :: xss)).
  rewrite map_map.
  rewrite (all_some_map _ (fun xs => vector (map2 ndiv xs ys))).
  - cbn [option_map]. now rewrite map_map.
  - intros xs [<- | Hxs]; apply zipL_vector; auto.
Qed.

(** Line 82 on a matrix: the second row divided by the first. *)
Lemma s_over_p_rows (ys xs : list num) (xss : list (list num)) :
  length xs = length ys ->
  s_over_p (rows (ys :: xs :: xss)) = Some (vector (map2 ndiv xs ys)).
Proof.
  intros Hm. unfold s_over_p, nd_index_slices, rows.
  cbn [map nd_index nth_error]. rewrite !ndim_vector. cbn [Nat.leb].
  unfold broadcast2. rewrite !ndim_vector. cbn [Nat.leb].
  now apply zipL_vector.
Qed.

(** Lines 80 and 82 on eigenvectors with at least two rows. *)
Lemma diagnostics_defined (ev : ndarray num) n m :
  shape ev = Some [n; m] -> 2 <= n ->
  exists ys xs xss,
    ev = rows (ys :: xs :: xss)
    /\ (forall zs, In zs (ys :: xs :: xss) -> length zs = m)
    /\ p_normalized ev
       = Some (rows (map (fun zs => map2 ndiv zs ys) (ys :: xs :: xss)))
    /\ s_over_p ev = Some (vector (map2 ndiv xs ys)).
Proof.
  intros E Hn. destruct (shape_rows_inv _ E) as (xss & -> & Hl & Hm).
  destruct xss as [| ys [| xs xss]]; cbn [length] in Hl; try lia.
  exists ys, xs, xss. split; [reflexivity |]. split; [exact Hm |].
  assert (forall zs, In zs (xs :: xss) -> length zs = length ys) as Hy.
  { intros zs Hzs. rewrite (Hm ys (or_introl eq_refl)). apply Hm. now right. }
  split; [now apply p_normalized_rows |].
  apply s_over_p_rows. apply Hy. now left.
Qed.

End Diagnostics.

(** ** The first smallest entry *)

Section FirstMinimum.
Context {num : Type} `{Arith num}.

Hypothesis ltb_irrefl : forall x : num, nltb x x = false.
Hypothesis ltb_trans : forall x y z : num,
  nltb x y = true -> nltb y z = true -> nltb x z = true.
Hypothesis ltb_incomparable : forall x y z : num,
  nltb x y = false -> nltb y z = false -> nltb x z = false.



End FirstMinimum.

(** The comparison of the rationals is irreflexive and transitive, and
    so is its negation. *)
Section RationalOrder.
Import ExactQ.






End RationalOrder.

(** ** What a run shows, by the way it ends *)

Section Shown.
Context {num : Type} `{Arith num} `{Routines num}.

Import cholesteric.

Lemma display_library (tr : list (event num)) :
  forallb is_library_fn (names tr) = true -> display tr = [].
Proof.
  induction tr as [| e tr IH]; cbn [names map forallb display];
    [reflexivity |].
  intros E. apply andb_prop in E. destruct E as [He Htr].
  rewrite (library_not_shown _ He). now apply IH.
Qed.


Lemma length_names (tr : list (event num)) : length (names tr) = length tr.
Proof. apply length_map. Qed.

Lemma first_failure_lines (o : environment num) l :
  first_failure o = Some l -> In l [53; 63; 67; 68; 80; 82; 88].
Proof.
  intros F. symmetry in F. unfold first_failure in F.
  destruct stop_band_index_defined as (k & Hk & _). rewrite Hk in F.
  unfold ellipticity in F.
  repeat match type of F with
         | _ = match ?e with _ => _ end => destruct e; cbn [option_map] in F
         end.
  all: try discriminate F; injection F as ->; cbn; tauto.
Qed.


(** A run that raises has got through a part of the schedule only. *)
Lemma raised_reach (o : environment num) l :
  result o 0 script = Raised l ->
  names (trace o 0 script)
    = firstn (reached (Raised l : outcome (globals num))) schedule
  /\ In l [53; 63; 67; 68; 80; 82; 88].
Proof.
  intros E. split.
  - rewrite <- E. apply schedule_followed.
  - apply (@first_failure_lines o). rewrite <- first_failure_run, E. reflexivity.
Qed.

(** When the solver returned pairs, the first operations that can raise
    are the eigen-solver and what follows it. *)
Lemma first_failure_pairs (o : environment num) :
  forallb returns_pair (solver_answers o) = true ->
  exists js k j,
    np_array (solver_answers o) = Some (Ar (map nd_of_pair js))
    /\ stop_band_index = Some k
    /\ nth_error js k = Some j
    /\ stop_band_matrix o = Some (transmission j)
    /\ first_failure o
       = match linalg_eig (transmission j) with
         | None => Some 68
         | Some eig =>
           match p_normalized (snd eig) with
           | None => Some 80
           | Some _ =>
             match s_over_p (snd eig) with
             | None => Some 82
             | Some _ =>
               match asarray (o 127 (circular_call (Ar (map nd_of_pair js)))) with
               | None => Some 88
               | Some _ => None
               end
             end
           end
         end.
Proof.
  intros Hpairs.
  destruct (run_on_pairs _ Hpairs) as (js & k & j & Hlen & HJ & Hk & Ej & _).
  assert (js <> []) as Hne by (intros ->; discriminate).
  exists js, k, j. do 3 (split; [assumption |]).
  pose proof (transmission_matrix_pairs _ _ Ej) as HT.
  split; [unfold stop_band_matrix; now rewrite HJ, Hk |].
  unfold first_failure. rewrite HJ, (unpack_powers Hne), Hk, HT.
  unfold ellipticity.
  destruct (linalg_eig (transmission j)) as [eig |]; [| reflexivity].
  destruct (p_normalized (snd eig)); [| reflexivity].
  destruct (s_over_p (snd eig)); reflexivity.
Qed.


Lemma raised_of_first_failure (o : environment num) l :
  first_failure o = Some l -> result o 0 script = Raised l.
Proof.
  rewrite <- first_failure_run.
  destruct (result o 0 script) as [g | l']; [discriminate |].
  now intros [= ->].
Qed.

End Shown.

(** ** Further properties of the script *)

Import Samples.







(** X4.  What the script computes and prints up to line 84 is a
    function of the hundred values the solver returned: two completed
    runs in which the solver returned the same values hold the same [J],
    [total_power], [R_np], [T_np], [i], [T], eigenvalues and
    eigenvectors, and print the same thirteen lines, whatever the other
    calls returned. *)
Theorem diagnostics_from_solver_answers {num : Type} `{Arith num}
    `{Routines num} (o1 o2 : environment num) g1 g2 :
  solver_answers o1 = solver_answers o2 ->
  result o1 0 script = Done g1 ->
  result o2 0 script = Done g2 ->
  J g1 = J g2
  /\ total_power g1 = total_power g2
  /\ R_np g1 = R_np g2 /\ T_np g1 = T_np g2
  /\ i g1 = i g2 /\ T g1 = T g2
  /\ eigenvalues g1 = eigenvalues g2 /\ eigenvectors g1 = eigenvectors g2
  /\ map fst (calls_to print (trace o1 0 script))
     = map fst (calls_to print (trace o2 0 script)).
Proof.
  intros Hs Hd1 Hd2.
  destruct (solver_answers_done _ Hd1) as [HJ1 _].
  destruct (solver_answers_done _ Hd2) as [HJ2 _].
  destruct (script_done _ Hd1)
    as (LC1 & vs1 & nrm1 & rat1 & ang1 & Jca1 & xax1 & Htr1 & _ & _ & _
        & Htot1 & Hun1 & Hi1 & HT1 & Heig1 & Hp1 & Hq1 & He1 & _).
  destruct (script_done _ Hd2)
    as (LC2 & vs2 & nrm2 & rat2 & ang2 & Jca2 & xax2 & Htr2 & _ & _ & _
        & Htot2 & Hun2 & Hi2 & HT2 & Heig2 & Hp2 & Hq2 & He2 & _).
  clear Hd1 Hd2.
  assert (J g1 = J g2) as EJ by congruence.
  assert (total_power g1 = total_power g2) as Etot by congruence.
  assert (i g1 = i g2) as Ei by congruence.
  assert (T g1 = T g2) as ET by congruence.
  assert (eigenvalues g1 = eigenvalues g2 /\ eigenvectors g1 = eigenvectors g2)
    as [Ew Ev].
  { rewrite ET, Heig2 in Heig1. injection Heig1 as -> ->. split; reflexivity. }
  assert (R_np g1 = R_np g2 /\ T_np g1 = T_np g2) as [ER ETn].
  { rewrite Etot, Hun2 in Hun1. injection Hun1 as -> ->. split; reflexivity. }
  do 8 (split; [assumption |]).
  rewrite Htr1, Htr2, !calls_to_script_events.
  assert (nrm1 = nrm2) as -> by congruence.
  assert (rat1 = rat2) as -> by congruence.
  assert (ang1 = ang2) as -> by congruence.
  cbn. rewrite Ew, Ev. reflexivity.
Qed.

Lemma diagnostics_from_solver_answers_witness :
  exists g1 g2,
    result library 0 script = Done g1
    /\ result library_mute 0 script = Done g2
    /\ map fst (calls_to print (trace library 0 script))
       = map fst (calls_to print (trace library_mute 0 script)).
Proof.
  do 2 eexists.
  split; [vm_compute; reflexivity |]. split; [vm_compute; reflexivity |].
  eapply (@diagnostics_from_solver_answers Q _ _ library library_mute);
    vm_compute; reflexivity.
Defined.



(** X6.  When every solver call returns a pair of 2x2 matrices, the only
    things left that can stop the script are the eigen-solver and
    [circularJones]: if [numpy.linalg.eig] raises on the transmission
    matrix the script stops at line 68 with nothing shown; if it returns
    eigenvectors with two axes and at least two rows and [circularJones]
    returns no array-like, the script stops at line 88. *)
Theorem failures_after_the_sweep {num : Type} `{Arith num} `{Routines num}
    (o : environment num) :
  forallb returns_pair (solver_answers o) = true ->
  exists J0 t,
    np_array (solver_answers o) = Some J0
    /\ stop_band_matrix o = Some t
    /\ (linalg_eig t = None ->
        result o 0 script = Raised 68 /\ display (trace o 0 script) = [])
    /\ (forall w v n m,
          linalg_eig t = Some (w, v) -> shape v = Some [n; m] -> 2 <= n ->
          asarray (o 127 (circular_call J0)) = None ->
          result o 0 script = Raised 88).
Proof.
  intros Hpairs.
  destruct (first_failure_pairs _ Hpairs) as (js & k & j & HJ & _ & _ & HT & F).
  exists (Ar (map nd_of_pair js)), (transmission j).
  split; [exact HJ |]. split; [exact HT |]. split.
  - intros E. rewrite E in F.
    pose proof (raised_of_first_failure _ F) as Hr.
    split; [exact Hr |].
    apply display_library. rewrite (proj1 (raised_reach _ Hr)). reflexivity.
  - intros w v n m Ev Sv Hn Ec.
    destruct (diagnostics_defined _ Sv Hn) as (ys & xs & xss & _ & _ & Hp & Hq).
    rewrite Ev in F. cbn [snd] in F. rewrite Hp, Hq, Ec in F.
    exact (raised_of_first_failure _ F).
Qed.

(** The sample eigen-solver refuses a transmission matrix that couples
    the polarisations; and a [circularJones] that returns [None] stops
    the script at line 88. *)
Lemma failures_after_the_sweep_witness :
  (result library_coupled 0 script = Raised 68
   /\ display (trace library_coupled 0 script) = [])
  /\ result library_no_circular 0 script = Raised 88.
Proof.
  split.
  - destruct (@failures_after_the_sweep Q _ _ library_coupled)
      as (J0 & t & _ & Ht & H68 & _); [vm_compute; reflexivity |].
    apply H68. vm_compute in Ht. injection Ht as <-. reflexivity.
  - destruct (@failures_after_the_sweep Q _ _ library_no_circular)
      as (J0 & t & HJ & Ht & _ & H88); [vm_compute; reflexivity |].
    vm_compute in Ht. injection Ht as <-.
    vm_compute in HJ. injection HJ as <-.
    apply (H88 (Ar [Sc (1 # 2)%Q; Sc (1 # 1)%Q])
               (Ar [Ar [Sc (1 # 1)%Q; Sc (0 # 1)%Q];
                    Ar [Sc (0 # 1)%Q; Sc (1 # 1)%Q]]) 2 2);
      [vm_compute; reflexivity | reflexivity | lia | vm_compute; reflexivity].
Defined.

(** X7.  What a completed run tells about the solver: the hundred
    returned values all converted to arrays of one shape, with at least
    three axes and at least two entries along the first; [J] stacks them
    along a new first axis, [T] has the shape of one entry of a returned
    value, the power array has the shape of [J], and [total_power] that
    shape without its last two axes. *)
Theorem completed_run_shapes {num : Type} `{Arith num} `{Routines num}
    (o : environment num) g :
  result o 0 script = Done g ->
  exists a b c sh,
    shape (J g) = Some (100 :: a :: b :: c :: sh)
    /\ 2 <= a
    /\ shape (T g) = Some (b :: c :: sh)
    /\ shape (abs_sq (J g)) = Some (100 :: a :: b :: c :: sh)
    /\ (exists sh' y z,
          100 :: a :: b :: c :: sh = sh' ++ [y; z]
          /\ shape (total_power g) = Some sh')
    /\ forall v, In v (solver_answers o) ->
         exists x, to_nd v = Some x /\ shape x = Some (a :: b :: c :: sh).
Proof.
  intros Hdone.
  destruct (solver_answers_done _ Hdone) as [HJ _].
  destruct (sweep_of_every_run o) as (_ & _ & _ & _ & _ & _ & Hlen).
  destruct (script_done _ Hdone)
    as (_ & _ & _ & _ & _ & _ & _ & _ & _ & _ & _ & Htot & _ & _ & HT & _).
  destruct (np_array_Ar _ HJ) as (l & sh0 & EJ & Hsh).
  destruct (shape_Ar_cons _ Hsh) as (q & sh1 & ->).
  destruct (shape_Ar_inv _ Hsh) as [Hq Hall].
  assert (q = 100) as ->.
  { rewrite <- Hq, <- Hlen. revert HJ. rewrite EJ.
    unfold np_array, asarray. cbn [to_nd].
    destruct (all_some _) as [l' |] eqn:El; [| discriminate].
    cbn [option_map]. destruct (shape (Ar l')); [| discriminate].
    intros [= ->]. apply all_some_length in El.
    rewrite El. apply length_map. }
  unfold transmission_matrix, nd_index_slices in HT. rewrite EJ in HT.
  cbn [nd_index] in HT.
  destruct (nth_error l (i g)) as [Ji |] eqn:Ei; [| discriminate].
  pose proof (Hall _ (nth_error_In _ _ Ei)) as SJi.
  destruct Ji as [x | li]; [discriminate |]. cbn [nd_index] in HT.
  destruct (nth_error li 1) as [t |] eqn:Et; [| discriminate].
  destruct (2 <=? ndim t) eqn:Hd; [| discriminate]. injection HT as ET.
  destruct (shape_Ar_cons _ SJi) as (a & sh2 & ->).
  destruct (shape_Ar_inv _ SJi) as [Ha Hall'].
  pose proof (Hall' _ (nth_error_In _ _ Et)) as St.
  assert (1 < a) as Ha2.
  { rewrite <- Ha. apply nth_error_Some. rewrite Et. discriminate. }
  apply Nat.leb_le in Hd. rewrite (ndim_shape _ St) in Hd.
  destruct sh2 as [| b [| c sh]]; cbn [length] in Hd; try lia.
  exists a, b, c, sh. rewrite EJ, <- ET.
  split; [exact Hsh |]. split; [lia |]. split; [exact St |].
  split; [unfold abs_sq; apply shape_nd_map; exact Hsh |].
  split.
  { destruct (@last_two _ (100 :: a :: b :: c :: sh)) as (sh' & y & z & E);
      [cbn [length]; lia |].
    exists sh', y, z. split; [exact E |].
    rewrite Htot, EJ. unfold total_power_of, abs_sq. apply shape_nd_map.
    apply (shape_sum_last _ sh' y). apply (shape_sum_last _ (sh' ++ [y]) z).
    apply shape_nd_map. rewrite <- app_assoc. cbn [app]. rewrite <- E.
    exact Hsh. }
  intros v Hv. apply In_nth_error in Hv. destruct Hv as [n Hv].
  destruct (np_array_nth _ HJ _ Hv) as (x & Ex & Hx).
  exists x. split; [exact Ex |]. rewrite EJ in Hx. cbn [nd_index] in Hx.
  exact (Hall _ (nth_error_In _ _ Hx)).
Qed.

Lemma completed_run_shapes_witness :
  exists g, result library 0 script = Done g
            /\ exists a b c sh,
                 shape (J g) = Some (100 :: a :: b :: c :: sh) /\ 2 <= a.
Proof.
  completed_run.
  edestruct (@completed_run_shapes Q _ _ library)
    as (a & b & c & sh & H1 & H2 & _); [vm_compute; reflexivity |].
  exists a, b, c, sh. split; assumption.
Defined.

(** X8.  Lines 80 to 84 on eigenvectors with two axes.  In a completed
    run the array printed under "Normalization to the 'p' componant:" has
    the shape of [eigenvectors], each of its entries is the entry of
    [eigenvectors] divided by the entry of the first row in the same
    column, and its second row is the ratio [eigenvectors[1,:] /
    eigenvectors[0,:]], whose moduli are printed under "Ratio 's'/'p':"
    and whose arguments, multiplied by [180/pi], under "Ellipticity
    angle". *)
Theorem eigenvectors_by_p_component {num : Type} `{Arith num} `{Routines num}
    (o : environment num) g n m :
  result o 0 script = Done g ->
  shape (eigenvectors g) = Some [n; m] ->
  exists normalized ratio angles,
    map fst (calls_to print (trace o 0 script))
    = tl (diagnostic_calls g normalized ratio angles)
    /\ shape normalized = Some [n; m]
    /\ nd_index normalized 1 = Some ratio
    /\ (forall r c x y,
          nd_at (eigenvectors g) [r; c] = Some (Sc x) ->
          nd_at (eigenvectors g) [0; c] = Some (Sc y) ->
          nd_at normalized [r; c] = Some (Sc (ndiv x y)))
    /\ (forall c x y,
          nd_at (eigenvectors g) [1; c] = Some (Sc x) ->
          nd_at (eigenvectors g) [0; c] = Some (Sc y) ->
          nd_index ratio c = Some (Sc (ndiv x y))
          /\ nd_index angles c
             = Some (Sc (nmul (ndiv (nint 180) pi) (nangle (ndiv x y))))).
Proof.
  intros Hdone Sev.
  destruct (script_done _ Hdone)
    as (LC0 & vs & nrm & rat & ang & Jca & xax & Htr & _ & _ & _ & _ & _ & _
        & _ & _ & Hp & Hq & He & _).
  exists nrm, rat, ang.
  split; [rewrite Htr, calls_to_script_events; reflexivity |].
  clear Htr Hdone.
  destruct (shape_rows_inv _ Sev) as (xss & Eev & Hn & Hm).
  rewrite Eev in *. clear Eev.
  destruct xss as [| ys [| xs xss]]; [discriminate Sev | discriminate Hq |].
  assert (forall zs, In zs (ys :: xs :: xss) -> length zs = length ys) as Hy.
  { intros zs Hzs. rewrite (Hm ys (or_introl eq_refl)). exact (Hm zs Hzs). }
  rewrite p_normalized_rows in Hp by (intros zs Hzs; apply Hy; now right).
  rewrite s_over_p_rows in Hq by (apply Hy; right; now left).
  unfold ellipticity in He.
  rewrite s_over_p_rows in He by (apply Hy; right; now left).
  assert (nrm = rows (map (fun zs => map2 ndiv zs ys) (ys :: xs :: xss)))
    as -> by congruence.
  assert (rat = vector (map2 ndiv xs ys)) as -> by congruence.
  cbn [option_map] in He. injection He as <-. clear Hp Hq.
  split; [| split; [reflexivity | split]].
  - rewrite (@shape_rows _ _ m).
    + now rewrite length_map, Hn.
    + discriminate.
    + intros zs Hzs. apply in_map_iff in Hzs. destruct Hzs as (us & <- & Hus).
      rewrite length_map2 by (now apply Hy). exact (Hm ys (or_introl eq_refl)).
  - intros r c x y. rewrite !nd_at_rows. cbn [nth_error].
    rewrite nth_error_map.
    destruct (nth_error (ys :: xs :: xss) r) as [zs |]; [| discriminate].
    cbn [option_map].
    destruct (nth_error zs c) as [x' |] eqn:Ex; [| discriminate].
    destruct (nth_error ys c) as [y' |] eqn:Ey; [| discriminate].
    intros [= ->] [= ->]. now rewrite (nth_error_map2 _ _ _ _ Ex Ey).
  - intros c x y. rewrite !nd_at_rows. cbn [nth_error].
    destruct (nth_error xs c) as [x' |] eqn:Ex; [| discriminate].
    destruct (nth_error ys c) as [y' |] eqn:Ey; [| discriminate].
    intros [= ->] [= ->]. unfold vector. cbn [nd_map nd_index].
    rewrite !nth_error_map, (nth_error_map2 _ _ _ _ Ex Ey). split; reflexivity.
Qed.

(** The sample eigen-solver returns the identity matrix: the entry of
    the second row in the first column is 0 divided by 1. *)
Lemma eigenvectors_by_p_component_witness :
  exists g,
    result library 0 script = Done g
    /\ exists normalized,
         nth_error (map fst (calls_to print (trace library 0 script))) 8
         = Some (mk_call print [VArr normalized] [])
         /\ nd_at normalized [1; 0] = Some (Sc (ndiv (0 # 1)%Q (1 # 1)%Q)).
Proof.
  completed_run.
  edestruct (@eigenvectors_by_p_component Q _ _ library)
    as (nrm & rat & ang & Hprint & _ & _ & Hat & _);
    [vm_compute; reflexivity | vm_compute; reflexivity |].
  exists nrm. split; [rewrite Hprint; reflexivity |].
  apply Hat; vm_compute; reflexivity.
Defined.

(** X9.  When the solver's answers have three axes, a completed run tells
    that the first of them has length 2: [total_power] is then a 100x2
    matrix, and [R_np] and [T_np] are its two columns. *)
Theorem unpolarized_columns {num : Type} `{Arith num} `{Routines num}
    (o : environment num) g a b c :
  result o 0 script = Done g ->
  shape (J g) = Some [100; a; b; c] ->
  a = 2
  /\ shape (total_power g) = Some [100; 2]
  /\ shape (R_np g) = Some [100]
  /\ shape (T_np g) = Some [100]
  /\ forall k,
       nd_index (R_np g) k = nd_at (total_power g) [k; 0]
       /\ nd_index (T_np g) k = nd_at (total_power g) [k; 1].
Proof.
  intros Hdone SJ.
  destruct (script_done _ Hdone)
    as (LC0 & vs & nrm & rat & ang & Jca & xax & _ & _ & _ & _ & Htot & Hun
        & _).
  clear Hdone.
  assert (shape (total_power g) = Some [100; a]) as Stot.
  { rewrite Htot. unfold total_power_of, abs_sq. apply shape_nd_map.
    apply (shape_sum_last _ [100; a] b).
    apply (shape_sum_last _ [100; a; b] c).
    apply shape_nd_map. exact SJ. }
  destruct (shape_rows_inv _ Stot) as (xss & Etot & Hn & Hm).
  rewrite Etot in *. clear Etot Htot.
  assert (xss <> []) as Hne by (intros ->; discriminate Hn).
  rewrite (transpose_rows Hne Hm) in Hun.
  destruct a as [| [| [| a]]]; try discriminate Hun.
  cbn [seq map unpack2] in Hun. injection Hun as <- <-.
  assert (forall xs, In xs xss -> exists x y, xs = [x; y]) as Hxy
    by (intros xs Hxs; apply length2_inv; exact (Hm xs Hxs)).
  split; [reflexivity |]. split; [exact Stot |].
  split; [| split].
  - rewrite (@shape_all _ _ []).
    + rewrite length_map, Hn. reflexivity.
    + destruct xss; [congruence | discriminate].
    + intros z Hz. apply in_map_iff in Hz. destruct Hz as (xs & <- & Hxs).
      destruct (Hxy xs Hxs) as (x & y & ->). reflexivity.
  - rewrite (@shape_all _ _ []).
    + rewrite length_map, Hn. reflexivity.
    + destruct xss; [congruence | discriminate].
    + intros z Hz. apply in_map_iff in Hz. destruct Hz as (xs & <- & Hxs).
      destruct (Hxy xs Hxs) as (x & y & ->). reflexivity.
  - intros k. rewrite !nd_at_rows. cbn [nd_index]. rewrite !nth_error_map.
    destruct (nth_error xss k) as [xs |] eqn:Ek; [| split; reflexivity].
    destruct (Hxy xs (nth_error_In _ _ Ek)) as (x & y & ->).
    split; reflexivity.
Qed.

Lemma unpolarized_columns_witness :
  exists g, result library 0 script = Done g
            /\ shape (total_power g) = Some [100; 2]
            /\ nd_index (R_np g) 0 = nd_at (total_power g) [0; 0].
Proof.
  completed_run.
  edestruct (@unpolarized_columns Q _ _ library) as (_ & H2 & _ & _ & Hk);
    [vm_compute; reflexivity | vm_compute; reflexivity |].
  split; [exact H2 | apply Hk].
Defined.



(** X11.  Lines 102 to 107.  A completed run opens one figure, adds one
    axes to it with [add_subplot("111")], makes one cyan rectangle with
    lower left corner [(p*no, 0)], width [p*ne - p*no] and height [R_th],
    and adds that rectangle to those axes.  In exact arithmetic the
    rectangle starts at 0.975e-6, is 0.065e-6 wide, contains [lbda_B] and
    lies within the sweep; in binary64 the same comparisons hold. *)
Theorem stop_band_rectangle :
  (forall (num : Type) (A : Arith num) (Rt : Routines num)
          (o : environment num) g,
     result o 0 script = Done g ->
     calls_to figure (trace o 0 script) = [ (mk_call figure [] [], fig g) ]
     /\ calls_to add_subplot (trace o 0 script)
        = [ (mk_call add_subplot [fig g; VStr "111"] [], ax g) ]
     /\ calls_to Rectangle (trace o 0 script)
        = [ (mk_call Rectangle
               [VTuple [VNum lbda_B1; VInt 0];
                VNum (nsub lbda_B2 lbda_B1); VNum R_th]
               [("color"%string, VStr "cyan")], rectangle g) ]
     /\ map fst (calls_to add_patch (trace o 0 script))
        = [ mk_call add_patch [ax g; rectangle g] [] ])
  /\ (@lbda_B1 Q ExactQ.arith = Qred 0.975e-6
      /\ @nsub Q ExactQ.arith lbda_B2 lbda_B1 = Qred 0.065e-6
      /\ Qlt (@lbda_min Q ExactQ.arith) (@lbda_B1 Q ExactQ.arith)
      /\ Qlt (@lbda_B1 Q ExactQ.arith) (@lbda_B Q ExactQ.arith)
      /\ Qlt (@lbda_B Q ExactQ.arith) (@lbda_B2 Q ExactQ.arith)
      /\ Qlt (@lbda_B2 Q ExactQ.arith) (@lbda_max Q ExactQ.arith))
  /\ (PrimFloat.ltb (@lbda_min float Binary64.arith) (@lbda_B1 float Binary64.arith)
      = true
      /\ PrimFloat.ltb (@lbda_B1 float Binary64.arith) (@lbda_B float Binary64.arith)
         = true
      /\ PrimFloat.ltb (@lbda_B float Binary64.arith) (@lbda_B2 float Binary64.arith)
         = true
      /\ PrimFloat.ltb (@lbda_B2 float Binary64.arith)
           (@lbda_max float Binary64.arith) = true).
Proof.
  split; [| split; repeat split; vm_compute; reflexivity].
  intros num A Rt o g Hdone.
  destruct (script_done _ Hdone)
    as (LC0 & vs & nrm & rat & ang & Jca & xax & Htr & _).
  rewrite Htr, !calls_to_script_events. repeat split; reflexivity.
Qed.

Lemma stop_band_rectangle_witness :
  exists g, result library 0 script = Done g
            /\ map fst (calls_to add_patch (trace library 0 script))
               = [ mk_call add_patch [ax g; rectangle g] [] ].
Proof.
  completed_run.
  edestruct (proj1 stop_band_rectangle Q _ _ library) as (_ & _ & _ & H4);
    [vm_compute; reflexivity |].
  exact H4.
Defined.

(** X12.  Lines 120 to 128.  A completed run sets the legend, the title
    and the two axis labels once each, on the axes the curves are drawn
    on; it reads [ax.xaxis] once, asks it for its major formatter and
    sets the power limits of that formatter to (-3, 3); and
    [pyplot.show()] is its last call outside, made once.  The number
    formatted into the title is 25/2.0, which is 12.5 in exact arithmetic
    and in binary64. *)
Theorem chart_decorations :
  (forall (num : Type) (A : Arith num) (Rt : Routines num)
          (o : environment num) g,
     result o 0 script = Done g ->
     map fst (calls_to legend (trace o 0 script))
     = [ mk_call legend [ax g]
           [("loc"%string, VStr "center right");
            ("bbox_to_anchor"%string,
             VTuple [VNum (nlit 1.00%Q); VNum (nlit 0.50%Q)])] ]
     /\ map fst (calls_to set_title (trace o 0 script))
        = [ mk_call set_title
              [ax g;
               VStr ("Right-handed Cholesteric Liquid Crystal, "
                     ++ (format_1f (ndiv (nint 25) (nlit 2.0%Q))
                         ++ " helix pitches"))] [] ]
     /\ map fst (calls_to set_xlabel (trace o 0 script))
        = [ mk_call set_xlabel [ax g; VStr "Wavelength $\lambda_0$ (m)"] [] ]
     /\ map fst (calls_to set_ylabel (trace o 0 script))
        = [ mk_call set_ylabel
              [ax g; VStr "Power transmission $T$ and reflexion $R$"] [] ]
     /\ (exists ax_xaxis,
           calls_to xaxis (trace o 0 script)
           = [ (mk_call xaxis [ax g] [], ax_xaxis) ]
           /\ calls_to get_major_formatter (trace o 0 script)
              = [ (mk_call get_major_formatter [ax_xaxis] [], fmt g) ])
     /\ map fst (calls_to set_powerlimits (trace o 0 script))
        = [ mk_call set_powerlimits [fmt g; VTuple [VInt (-3); VInt 3]] [] ]
     /\ map fst (calls_to show (trace o 0 script)) = [ mk_call show [] [] ]
     /\ nth_error (names (trace o 0 script)) 145 = Some show
     /\ length (trace o 0 script) = 146)
  /\ @ndiv Q ExactQ.arith (nint 25) (nlit 2.0%Q) = Qred 12.5
  /\ @ndiv float Binary64.arith (@nint float Binary64.arith 25)
       (@nlit float Binary64.arith 2.0%Q) = 12.5%float.
Proof.
  split; [| split; vm_compute; reflexivity].
  intros num A Rt o g Hdone.
  pose proof (schedule_followed o) as Hn. rewrite Hdone in Hn.
  destruct (script_done _ Hdone)
    as (LC0 & vs & nrm & rat & ang & Jca & xax & Htr & _).
  do 4 (split; [rewrite Htr, calls_to_script_events; reflexivity |]).
  split; [exists xax; rewrite Htr, !calls_to_script_events; split; reflexivity |].
  do 2 (split; [rewrite Htr, calls_to_script_events; reflexivity |]).
  split; [rewrite Hn; reflexivity |].
  rewrite <- length_names, Hn. reflexivity.
Qed.

Lemma chart_decorations_witness :
  exists g, result library 0 script = Done g
            /\ map fst (calls_to set_powerlimits (trace library 0 script))
               = [ mk_call set_powerlimits [fmt g; VTuple [VInt (-3); VInt 3]] [] ].
Proof.
  completed_run.
  edestruct (proj1 chart_decorations Q _ _ library)
    as (_ & _ & _ & _ & _ & H6 & _); [vm_compute; reflexivity |].
  exact H6.
Defined.

